(** * sqrl: fragments, predicate builders, combinators and template expansion

    A shallow embedding of [expr.go] and [json.go] of the sqrl SQL generator:
    every [Sqlizer] renders to a text, an ordered list of bound arguments and
    an error.  Go strings are byte strings ([string]); a Go slice is the list
    of its elements (a nil slice and an empty slice are both [[]]; where
    two paths of the code are compared on what they return, the slice is
    modelled with its nil-ness, see [slice]); a failed render is its error
    alone, the text and arguments that Go returns next to a non-nil error
    being unspecified for the callers. *)

From Stdlib Require Import String Ascii List ZArith NArith Lia Bool Arith.
From Stdlib Require Import Permutation.
From Stdlib Require Import DecimalString.
Import ListNotations.

Local Open Scope string_scope.
Local Open Scope list_scope.

Notation "a +++ b" := (String.append a b) (at level 60, right associativity).

(** ** Byte strings *)

Definition byte_of (c : ascii) : N := N_of_ascii c.

Definition is_digit (c : ascii) : bool :=
  (48 <=? byte_of c)%N && (byte_of c <=? 57)%N.

Definition digit_val (c : ascii) : N := (byte_of c - 48)%N.

(** The generic placeholder mark. *)
Definition mark : ascii := "?"%char.

(** [strings.Count(s, "?")]: the unresolved placeholder marks of a text. *)
Fixpoint marks (s : string) : nat :=
  match s with
  | EmptyString => 0
  | String c rest => (if Ascii.eqb c mark then 1 else 0) + marks rest
  end.

(** [strings.ContainsRune(s, '%')]. *)
Fixpoint has_percent (s : string) : bool :=
  match s with
  | EmptyString => false
  | String c rest => Ascii.eqb c "%"%char || has_percent rest
  end.

(** [s[n:]] for [n <= len(s)], the empty string beyond. *)
Fixpoint drop (n : nat) (s : string) : string :=
  match n, s with
  | O, _ => s
  | S n', String _ rest => drop n' rest
  | S _, EmptyString => EmptyString
  end.

(** [strings.Join(elems, sep)]. *)
Definition strings_Join (elems : list string) (sep : string) : string :=
  String.concat sep elems.

(** ** Go's [fmt] on a format with no operand

    [expr.ToSql] calls [fmt.Fprintf(buf, sql)]: the rendered text of a nested
    fragment is the format and there is no operand.  [Fmt.Sprintf0] follows
    [doPrintf] of the Go standard library (fmt/print.go) at an empty operand
    list: literal text is copied; [%%] writes one percent sign; any other
    verb has no operand left and writes [%!v(MISSING)], or [%!v(BADINDEX)]
    after an argument index; a format that ends inside a verb writes
    [%!(NOVERB)]; a star width or precision writes [%!(BADWIDTH)] or
    [%!(BADPREC)]. *)
Module Fmt.

(** Flags skipped after the percent sign: [#], [0], [+], [-] and space. *)
Definition is_flag (c : ascii) : bool :=
  match byte_of c with
  | 35%N | 48%N | 43%N | 45%N | 32%N => true
  | _ => false
  end.

Fixpoint skip_flags (s : string) : string :=
  match s with
  | String c rest => if is_flag c then skip_flags rest else s
  | EmptyString => s
  end.

(** [tooLarge]: a width, precision or index above one million. *)
Definition tooLarge (x : N) : bool := (1000000 <? x)%N.

(** The digit loop of [parsenum], on the text from [start] to [stop]:
    whether a number was read, and what is left of the text; [None] when
    the number is too large, where [parsenum] gives up and jumps to
    [stop]. *)
Fixpoint parsenum_loop (s : string) (num : N) (isnum : bool)
  : option (bool * string) :=
  match s with
  | String c rest =>
      if is_digit c then
        if tooLarge num then None
        else parsenum_loop rest (num * 10 + digit_val c)%N true
      else Some (isnum, s)
  | EmptyString => Some (isnum, s)
  end.

(** [parsenum(format, i, end)] with [end = len(format)]: on overflow the
    whole remaining format is consumed. *)
Definition parsenum (s : string) : bool * string :=
  match parsenum_loop s 0%N false with
  | Some r => r
  | None => (false, EmptyString)
  end.

(** The search of [parseArgNumber] for the closing bracket: the text
    between the brackets and its length. *)
Fixpoint find_bracket (s : string) : option (string * nat) :=
  match s with
  | EmptyString => None
  | String c rest =>
      if Ascii.eqb c "]"%char then Some (EmptyString, 0)
      else match find_bracket rest with
           | Some (inner, n) => Some (String c inner, S n)
           | None => None
           end
  end.

(** [parseArgNumber(format[i:])] where [format[i]] is an opening bracket
    and [s] is what follows it: the width of the bracketed index and
    whether it is a number. *)
Definition parseArgNumber (s : string) : nat * bool :=
  if Nat.ltb (String.length s) 2 then (1, false)
  else match find_bracket s with
       | Some (inner, n) =>
           match parsenum_loop inner 0%N false with
           | Some (true, EmptyString) => (n + 2, true)
           | _ => (n + 2, false)
           end
       | None => (1, false)
       end.

(** [argNumber] with no operand: the index is never in range, so a
    bracket always clears [goodArgNum]; returns what is left of the
    format, [found] and [goodArgNum]. *)
Definition argNumber (s : string) (good : bool) : string * bool * bool :=
  match s with
  | String c rest =>
      if Ascii.eqb c "["%char then
        let '(wid, ok) := parseArgNumber rest in
        (drop wid s, ok, false)
      else (s, false, good)
  | EmptyString => (s, false, good)
  end.

Definition starts_with (c : ascii) (s : string) : bool :=
  match s with
  | String d _ => Ascii.eqb c d
  | EmptyString => false
  end.

Definition in_range (lo hi : N) (c : ascii) : bool :=
  (lo <=? byte_of c)%N && (byte_of c <=? hi)%N.

(** The bytes of U+FFFD, which [writeRune] writes for [utf8.RuneError]. *)
Definition rune_error : string :=
  String (ascii_of_N 239)
         (String (ascii_of_N 191) (String (ascii_of_N 189) "")).

(** The continuation bytes of a multi-byte rune: [size - 1] bytes, the
    first within [lo..hi], the others within [0x80..0xBF]. *)
Fixpoint continuation (n : nat) (lo hi : N) (s : string) : option string :=
  match n with
  | O => Some EmptyString
  | S n' =>
      match s with
      | String c rest =>
          if in_range lo hi c then
            match continuation n' 128 191 rest with
            | Some t => Some (String c t)
            | None => None
            end
          else None
      | EmptyString => None
      end
  end.

(** [utf8.DecodeRuneInString] followed by [writeRune]: the bytes written
    for the verb and the number of bytes of the format it takes. *)
Definition decode_verb (c : ascii) (rest : string) : string * nat :=
  let b := byte_of c in
  let multi (size : nat) (lo hi : N) :=
    match continuation (size - 1) lo hi rest with
    | Some t => (String c t, size)
    | None => (rune_error, 1)
    end in
  if (b <? 128)%N then (String c "", 1)
  else if (b <? 194)%N then (rune_error, 1)
  else if (b <? 224)%N then multi 2 128%N 191%N
  else if (b =? 224)%N then multi 3 160%N 191%N
  else if (b =? 237)%N then multi 3 128%N 159%N
  else if (b <? 240)%N then multi 3 128%N 191%N
  else if (b =? 240)%N then multi 4 144%N 191%N
  else if (b <? 244)%N then multi 4 128%N 191%N
  else if (b =? 244)%N then multi 4 128%N 143%N
  else (rune_error, 1).

(** One verb of [doPrintf], [s] being the format after the percent sign:
    the text written and the number of bytes of [s] consumed. *)
Definition verb (s : string) : string * nat :=
  let s1 := skip_flags s in
  let '(s2, afterIndex, good) := argNumber s1 true in
  (* width *)
  let '(out_w, s3, afterIndex, good) :=
    if starts_with "*" s2 then ("%!(BADWIDTH)", drop 1 s2, false, good)
    else let '(widPresent, s3) := parsenum s2 in
         ("", s3, afterIndex,
          if afterIndex && widPresent then false else good) in
  (* precision *)
  let '(out_p, s4, afterIndex, good) :=
    if starts_with "." s3 then
      let good := if afterIndex then false else good in
      let '(s3', afterIndex, good) := argNumber (drop 1 s3) good in
      if starts_with "*" s3' then ("%!(BADPREC)", drop 1 s3', false, good)
      else ("", snd (parsenum s3'), afterIndex, good)
    else ("", s3, afterIndex, good) in
  let '(s5, good) :=
    if afterIndex then (s4, good)
    else let '(s5, _, good) := argNumber s4 good in (s5, good) in
  let used := String.length s - String.length s5 in
  match s5 with
  | EmptyString => (out_w +++ out_p +++ "%!(NOVERB)", used)
  | String c rest =>
      let '(v, size) := decode_verb c rest in
      let out :=
        if Ascii.eqb c "%"%char then "%"
        else if good then "%!" +++ v +++ "(MISSING)"
        else "%!" +++ v +++ "(BADINDEX)" in
      (out_w +++ out_p +++ out, used + size)
  end.

(** The loop of [doPrintf]: [skip] counts the bytes of the current verb
    that are still to be passed over. *)
Fixpoint doPrintf (skip : nat) (format : string) : string :=
  match format with
  | EmptyString => EmptyString
  | String c rest =>
      match skip with
      | S k => doPrintf k rest
      | O =>
          if Ascii.eqb c "%"%char then
            let '(out, used) := verb rest in
            out +++ doPrintf used rest
          else String c (doPrintf 0 rest)
      end
  end.

(** [fmt.Sprintf(format)]: what [fmt.Fprintf(buf, format)] appends to [buf]. *)
Definition Sprintf0 (format : string) : string := doPrintf 0 format.

End Fmt.

(** ** Values, fragments and render results *)

Inductive error : Type :=
| ErrValuer (msg : string)
    (** the error a [driver.Valuer] returns from [Value()] *)
| ErrNull
    (** "cannot use null with less than or greater than operators" *)
| ErrList
    (** "cannot use array or slice with less than or greater than operators" *)
| ErrNotStringOrSqlizer
    (** "%#v is not a string or Sqlizer" *)
| ErrJSON (tpe : string) (msg : string)
    (** "Failed to serialize <tpe> value: <msg>" *)
| ErrSqlizer (msg : string)
    (** the error of a [Sqlizer] implemented outside [expr.go] *)
| ErrIndexOutOfRange
    (** the run-time panic of an index outside a slice *).

Inductive result (A : Type) : Type :=
| OK (a : A)
| Err (e : error).
Arguments OK {A} a.
Arguments Err {A} e.

Scheme All for list.
Scheme All for prod.

(** A Go [interface{}] value, by the cases the code distinguishes: the nil
    interface, the scalars (integers, booleans, strings), [[]byte] (a slice
    that the driver takes as one value), the other arrays and slices, a
    [driver.Valuer] with the value and the error that its [Value()] returns,
    and a [Sqlizer].

    A fragment is a [Sqlizer] of [expr.go] or [json.go]; [Custom] stands
    for a [Sqlizer] implemented elsewhere (a statement builder, a part),
    given by what its [ToSql] returns.

    A Go map has no iteration order: each [range] statement visits the
    entries in an order that the run time chooses for that loop.  The
    predicate builders carry their entries as the sequence that the
    [range] of the render at hand visits; another render of the same map
    visits a permutation of it. *)
Inductive Value : Type :=
| VNil
| VInt (z : Z)
| VBool (b : bool)
| VString (s : string)
| VBytes (b : string)
| VList (l : list Value)
| VValuer (val : Value) (err : option error)
| VSqlizer (f : Fragment)
with Fragment : Type :=
| Expr (sql : string) (args : list Value)
| Eq (m : list (string * Value))
| NotEq (m : list (string * Value))
| Lt (m : list (string * Value))
| LtOrEq (m : list (string * Value))
| Gt (m : list (string * Value))
| GtOrEq (m : list (string * Value))
| And (c : list Fragment)
| Or (c : list Fragment)
| ConcatExpr (parts : list Value)
| Fn (name : string) (fargs : list Fragment)
| JsonOp (value : Value) (tpe : string)
| Custom (sql : string) (args : list Value) (err : option error).

Scheme Value_mut := Induction for Value Sort Prop
  with Fragment_mut := Induction for Fragment Sort Prop.
Combined Scheme Value_Fragment_ind from Value_mut, Fragment_mut.

(** What [ToSql] returns: the text and the bound arguments, or the error. *)
Definition rendered : Type := result (string * list Value).

(** [JSON] and [JSONB] of json.go. *)
Definition JSON (value : Value) : Fragment := JsonOp value "json".
Definition JSONB (value : Value) : Fragment := JsonOp value "jsonb".

(** ** Placeholders *)

(** Modelled from the spec: [Placeholders(count)] of placeholder.go, which
    is not among the sources: [count] placeholder marks separated by
    commas, as in ["<key> IN (?,...,?)"]. *)
Definition Placeholders (count : nat) : string :=
  strings_Join (repeat "?" count) ",".

Section ReplacePlaceholders.
(** The state that the callback closes over (the [args] of [expr.ToSql]). *)
Context {St : Type}.
Variable replace : string -> nat -> St -> result (string * St).

(** Modelled from the spec: [replacePlaceholders(sql, replace)] of
    placeholder.go, which is not among the sources: the template is
    scanned left to right; the text between marks is copied to the
    buffer, and on the mark at position [i] (counted from 1) the callback
    writes to the buffer in place of the mark; the first error of the
    callback ends the scan. *)
Fixpoint replacePlaceholders_from (sql : string) (i : nat) (buf : string)
         (st : St) : result (string * St) :=
  match sql with
  | EmptyString => OK (buf, st)
  | String c rest =>
      if Ascii.eqb c mark then
        match replace buf (S i) st with
        | OK (buf', st') => replacePlaceholders_from rest (S i) buf' st'
        | Err e => Err e
        end
      else replacePlaceholders_from rest i (buf +++ String c "") st
  end.

Definition replacePlaceholders (sql : string) (st : St)
  : result (string * St) :=
  replacePlaceholders_from sql 0 "" st.
End ReplacePlaceholders.

(** ** The dynamic type tests of expr.go *)

(** [driver.IsValue]: nil, [[]byte], bool, float64, int64, string and
    time.Time are driver values.  The answer matters for arrays and slices
    only, where [isListType] asks it. *)
Definition driver_IsValue (val : Value) : bool :=
  match val with
  | VNil | VBytes _ | VBool _ | VInt _ | VString _ => true
  | _ => false
  end.

(** The bytes of a [[]byte] as values. *)
Definition bytes_elems (b : string) : list Value :=
  map (fun c => VInt (Z.of_N (byte_of c))) (list_ascii_of_string b).

(** [reflect.ValueOf(val)] when its kind is [reflect.Array] or
    [reflect.Slice]: the elements, in index order.  [And], [Or] and
    [concatExpr] are slice types. *)
Definition reflect_elems (val : Value) : option (list Value) :=
  match val with
  | VBytes b => Some (bytes_elems b)
  | VList l => Some l
  | VSqlizer (And c) | VSqlizer (Or c) => Some (map VSqlizer c)
  | VSqlizer (ConcatExpr parts) => Some parts
  | _ => None
  end.

(** [valVal.Kind() == reflect.Array || valVal.Kind() == reflect.Slice]. *)
Definition kind_is_list (val : Value) : bool :=
  match reflect_elems val with
  | Some _ => true
  | None => false
  end.

Definition isListType (val : Value) : bool :=
  if driver_IsValue val then false else kind_is_list val.

(** [_, ok := arg.(Sqlizer)]. *)
Definition is_Sqlizer (arg : Value) : bool :=
  match arg with
  | VSqlizer _ => true
  | _ => false
  end.

Fixpoint hasSqlizer (args : list Value) : bool :=
  match args with
  | [] => false
  | arg :: rest => if is_Sqlizer arg then true else hasSqlizer rest
  end.

(** The type switch on [driver.Valuer] at the head of both predicate
    loops: [val, err = v.Value()]. *)
Definition unwrap_Valuer (val : Value) : result Value :=
  match val with
  | VValuer v None => OK v
  | VValuer _ (Some e) => Err e
  | _ => OK val
  end.

Definition is_nil (val : Value) : bool :=
  match val with
  | VNil => true
  | _ => false
  end.

(** [valVal.Len()] and [valVal.Index(i).Interface()] for [i] from 0. *)
Definition list_elems (val : Value) : list Value :=
  match reflect_elems val with
  | Some l => l
  | None => []
  end.

(** ** The predicate builders *)

(** The body of the loop of [Eq.toSql] for one entry: the clause and the
    arguments so far. *)
Definition Eq_entry (useNotOpr : bool) (key : string) (val : Value)
           (args : list Value) : result (string * list Value) :=
  let equalOpr := if useNotOpr then "<>" else "=" in
  let inOpr := if useNotOpr then "NOT IN" else "IN" in
  let nullOpr := if useNotOpr then "IS NOT" else "IS" in
  let inEmptyExpr := if useNotOpr then "(1=1)" else "(1=0)" in
  match unwrap_Valuer val with
  | Err e => Err e
  | OK val =>
      if is_nil val then
        OK (key +++ " " +++ nullOpr +++ " NULL", args)
      else if isListType val then
        let valVal := list_elems val in
        if Nat.eqb (length valVal) 0 then OK (inEmptyExpr, args)
        else OK (key +++ " " +++ inOpr +++ " ("
                   +++ Placeholders (length valVal) +++ ")",
                 args ++ valVal)
      else OK (key +++ " " +++ equalOpr +++ " ?", args ++ [val])
  end.

(** [for key, val := range eq], on the entries in the order visited. *)
Fixpoint Eq_loop (useNotOpr : bool) (eq : list (string * Value))
         (exprs : list string) (args : list Value)
  : result (list string * list Value) :=
  match eq with
  | [] => OK (exprs, args)
  | (key, val) :: rest =>
      match Eq_entry useNotOpr key val args with
      | Err e => Err e
      | OK (expr, args') => Eq_loop useNotOpr rest (exprs ++ [expr]) args'
      end
  end.

Definition Eq_toSql (eq : list (string * Value)) (useNotOpr : bool)
  : rendered :=
  match Eq_loop useNotOpr eq [] [] with
  | Err e => Err e
  | OK (exprs, args) => OK (strings_Join exprs " AND ", args)
  end.

(** The operator of [Lt.toSql]. *)
Definition Lt_opr (opposite orEq : bool) : string :=
  let opr := if opposite then ">" else "<" in
  if orEq then opr +++ "=" else opr.

Definition Lt_entry (opr : string) (key : string) (val : Value)
           (args : list Value) : result (string * list Value) :=
  match unwrap_Valuer val with
  | Err e => Err e
  | OK val =>
      if is_nil val then Err ErrNull
      else if isListType val then Err ErrList
      else OK (key +++ " " +++ opr +++ " ?", args ++ [val])
  end.

Fixpoint Lt_loop (opr : string) (lt : list (string * Value))
         (exprs : list string) (args : list Value)
  : result (list string * list Value) :=
  match lt with
  | [] => OK (exprs, args)
  | (key, val) :: rest =>
      match Lt_entry opr key val args with
      | Err e => Err e
      | OK (expr, args') => Lt_loop opr rest (exprs ++ [expr]) args'
      end
  end.

Definition Lt_toSql (lt : list (string * Value)) (opposite orEq : bool)
  : rendered :=
  match Lt_loop (Lt_opr opposite orEq) lt [] [] with
  | Err e => Err e
  | OK (exprs, args) => OK (strings_Join exprs " AND ", args)
  end.

(** ** Rendering *)

Section Render.

(** [json.Marshal] of the Go standard library, on the values of the
    model: the JSON text, or the message of its error. *)
Variable json_Marshal : Value -> string + string.

Definition jsonOp_ToSql (value : Value) (tpe : string) : rendered :=
  match json_Marshal value with
  | inr msg => Err (ErrJSON tpe msg)
  | inl v => OK ("?::" +++ tpe, [VString v])
  end.

Section Sqlizers.

(** The [ToSql] method of the [Sqlizer] interface, for the calls on
    children and arguments. *)
Variable ToSql : Fragment -> rendered.

(** The type switch of the callback of [expr.ToSql] on [e.args[i-1]]. *)
Definition expr_switch (arg : Value) (buf : string) (args : list Value)
  : result (string * list Value) :=
  match arg with
  | VSqlizer s =>
      match ToSql s with
      | Err e => Err e
      | OK (sql, vs) => OK (buf +++ Fmt.Sprintf0 sql, args ++ vs)
      end
  | _ => OK (buf +++ "?", args ++ [arg])
  end.

(** [e.args[n]], then the type switch on it. *)
Fixpoint expr_index (e_args : list Value) (n : nat) (buf : string)
         (args : list Value) : result (string * list Value) :=
  match e_args, n with
  | [], _ => Err ErrIndexOutOfRange
  | arg :: _, O => expr_switch arg buf args
  | _ :: rest, S n' => expr_index rest n' buf args
  end.

(** The callback that [expr.ToSql] passes to [replacePlaceholders]. *)
Definition expr_replace (e_args : list Value) (buf : string) (i : nat)
           (args : list Value) : result (string * list Value) :=
  if Nat.ltb (length e_args) i then OK (buf +++ "?", args)
  else expr_index e_args (i - 1) buf args.

(** [expr.ToSql] past its first test: the placeholder expansion. *)
Definition expr_expand (sql : string) (e_args : list Value) : rendered :=
  replacePlaceholders (expr_replace e_args) sql [].

Definition expr_ToSql (sql : string) (e_args : list Value) : rendered :=
  if negb (hasSqlizer e_args) then OK (sql, e_args)
  else expr_expand sql e_args.

(** The loop of [conj.join]. *)
Fixpoint conj_loop (c : list Fragment) (sqlParts : list string)
         (args : list Value) : result (list string * list Value) :=
  match c with
  | [] => OK (sqlParts, args)
  | sqlizer :: rest =>
      match ToSql sqlizer with
      | Err e => Err e
      | OK (partSql, partArgs) =>
          if String.eqb partSql "" then conj_loop rest sqlParts args
          else conj_loop rest (sqlParts ++ [partSql]) (args ++ partArgs)
      end
  end.

Definition conj_join (c : list Fragment) (sep : string) : rendered :=
  match conj_loop c [] [] with
  | Err e => Err e
  | OK (sqlParts, args) =>
      if Nat.ltb 0 (length sqlParts)
      then OK ("(" +++ strings_Join sqlParts sep +++ ")", args)
      else OK ("", args)
  end.

(** The loop of [concatExpr.ToSql]. *)
Fixpoint concatExpr_loop (ce : list Value) (sql : string)
         (args : list Value) : rendered :=
  match ce with
  | [] => OK (sql, args)
  | part :: rest =>
      match part with
      | VString p => concatExpr_loop rest (sql +++ p) args
      | VSqlizer p =>
          match ToSql p with
          | Err e => Err e
          | OK (pSql, pArgs) =>
              concatExpr_loop rest (sql +++ pSql) (args ++ pArgs)
          end
      | _ => Err ErrNotStringOrSqlizer
      end
  end.

Definition concatExpr_ToSql (ce : list Value) : rendered :=
  concatExpr_loop ce "" [].

(** The loop of [fn.ToSql], [a] being the index of the argument. *)
Fixpoint fn_loop (fargs : list Fragment) (a : nat) (sql : string)
         (args : list Value) : rendered :=
  match fargs with
  | [] => OK (sql, args)
  | farg :: rest =>
      let sql := if Nat.ltb 0 a then sql +++ ", " else sql in
      match ToSql farg with
      | Err e => Err e
      | OK (aSql, aArgs) => fn_loop rest (S a) (sql +++ aSql) (args ++ aArgs)
      end
  end.

Definition fn_ToSql (name : string) (fargs : list Fragment) : rendered :=
  match fn_loop fargs 0 (name +++ "(") [] with
  | Err e => Err e
  | OK (sql, args) => OK (sql +++ ")", args)
  end.

End Sqlizers.

(** A [Sqlizer] implemented elsewhere returns what it was built to return. *)
Definition Custom_ToSql (sql : string) (args : list Value)
           (err : option error) : rendered :=
  match err with
  | Some e => Err e
  | None => OK (sql, args)
  end.

(** [ToSql], by the dynamic type of the fragment. *)
Fixpoint ToSql (s : Fragment) : rendered :=
  match s with
  | Expr sql args => expr_ToSql ToSql sql args
  | Eq m => Eq_toSql m false
  | NotEq m => Eq_toSql m true
  | Lt m => Lt_toSql m false false
  | LtOrEq m => Lt_toSql m false true
  | Gt m => Lt_toSql m true false
  | GtOrEq m => Lt_toSql m true true
  | And c => conj_join ToSql c " AND "
  | Or c => conj_join ToSql c " OR "
  | ConcatExpr parts => concatExpr_ToSql ToSql parts
  | Fn name fargs => fn_ToSql ToSql name fargs
  | JsonOp value tpe => jsonOp_ToSql value tpe
  | Custom sql args err => Custom_ToSql sql args err
  end.

End Render.

(** ** The order of a range over a map *)

Section Enumerate.
(** The order in which the [range] statements of one render visit the
    entries of a map. *)
Variable range : list (string * Value) -> list (string * Value).

Definition enumerate_arg (enumerate : Fragment -> Fragment) (arg : Value)
  : Value :=
  match arg with
  | VSqlizer s => VSqlizer (enumerate s)
  | _ => arg
  end.

(** A fragment as one render sees it: every predicate map that the render
    ranges over is given in the order [range] visits it. *)
Fixpoint enumerate (s : Fragment) : Fragment :=
  match s with
  | Expr sql args => Expr sql (map (enumerate_arg enumerate) args)
  | Eq m => Eq (range m)
  | NotEq m => NotEq (range m)
  | Lt m => Lt (range m)
  | LtOrEq m => LtOrEq (range m)
  | Gt m => Gt (range m)
  | GtOrEq m => GtOrEq (range m)
  | And c => And (map enumerate c)
  | Or c => Or (map enumerate c)
  | ConcatExpr parts => ConcatExpr (map (enumerate_arg enumerate) parts)
  | Fn name fargs => Fn name (map enumerate fargs)
  | JsonOp _ _ | Custom _ _ _ => s
  end.
End Enumerate.

(** ** The maps that a render ranges over *)


(** Two renders fail together or succeed together; when they succeed
    they bind the same arguments up to their order, and their texts are
    empty together. *)
Definition renders_alike (r r' : rendered) : Prop :=
  match r, r' with
  | OK (sql, args), OK (sql', args') =>
      Permutation args args' /\ (sql = "" <-> sql' = "")
  | Err _, Err _ => True
  | _, _ => False
  end.

Section Reached.
Variable json_Marshal : Value -> string + string.
(** The test on one fragment that the render reaches. *)
Variable short : Fragment -> bool.



End Reached.


(** ** Argument slices with their nil-ness

    [ToSql] above returns the bound arguments as the list of their
    elements.  The definitions of this part keep, for [expr.ToSql],
    [Eq.toSql] and [conj.join], what the list leaves out: whether the
    slice returned is nil. *)

(** A [[]interface{}]: the nil slice, or a slice that is not nil. *)
Inductive slice : Type :=
| nil_slice
| slice_of (elems : list Value).

Definition slice_elems (s : slice) : list Value :=
  match s with
  | nil_slice => []
  | slice_of elems => elems
  end.

(** [append(s, vs...)]: with nothing to append [s] is returned as it is,
    nil or not; a slice with an element is not nil. *)
Definition append_slice (s : slice) (vs : list Value) : slice :=
  match vs with
  | [] => s
  | _ :: _ => slice_of (slice_elems s ++ vs)
  end.

Section ExprSlices.
Variable ToSql : Fragment -> rendered.

(** The type switch of the callback of [expr.ToSql], [args] being the
    slice that the callback appends to. *)
Definition expr_switch_slice (arg : Value) (buf : string) (args : slice)
  : result (string * slice) :=
  match arg with
  | VSqlizer s =>
      match ToSql s with
      | Err e => Err e
      | OK (sql, vs) => OK (buf +++ Fmt.Sprintf0 sql, append_slice args vs)
      end
  | _ => OK (buf +++ "?", append_slice args [arg])
  end.

Fixpoint expr_index_slice (e_args : list Value) (n : nat) (buf : string)
         (args : slice) : result (string * slice) :=
  match e_args, n with
  | [], _ => Err ErrIndexOutOfRange
  | arg :: _, O => expr_switch_slice arg buf args
  | _ :: rest, S n' => expr_index_slice rest n' buf args
  end.

Definition expr_replace_slice (e_args : slice) (buf : string) (i : nat)
           (args : slice) : result (string * slice) :=
  if Nat.ltb (length (slice_elems e_args)) i then OK (buf +++ "?", args)
  else expr_index_slice (slice_elems e_args) (i - 1) buf args.

(** [expr.ToSql] past its first test: [args] starts as
    [make([]interface{}, 0, len(e.args))], which is not nil. *)
Definition expr_expand_slice (sql : string) (e_args : slice)
  : result (string * slice) :=
  replacePlaceholders (expr_replace_slice e_args) sql (slice_of []).

(** [expr.ToSql]: the fast path returns [e.args] itself. *)
Definition expr_ToSql_slice (sql : string) (e_args : slice)
  : result (string * slice) :=
  if negb (hasSqlizer (slice_elems e_args)) then OK (sql, e_args)
  else expr_expand_slice sql e_args.

(** The loop of [conj.join], [args] being the named result, nil at first. *)
Fixpoint conj_loop_slice (c : list Fragment) (sqlParts : list string)
         (args : slice) : result (list string * slice) :=
  match c with
  | [] => OK (sqlParts, args)
  | sqlizer :: rest =>
      match ToSql sqlizer with
      | Err e => Err e
      | OK (partSql, partArgs) =>
          if String.eqb partSql "" then conj_loop_slice rest sqlParts args
          else conj_loop_slice rest (sqlParts ++ [partSql])
                               (append_slice args partArgs)
      end
  end.

Definition conj_join_slice (c : list Fragment) (sep : string)
  : result (string * slice) :=
  match conj_loop_slice c [] nil_slice with
  | Err e => Err e
  | OK (sqlParts, args) =>
      if Nat.ltb 0 (length sqlParts)
      then OK ("(" +++ strings_Join sqlParts sep +++ ")", args)
      else OK ("", args)
  end.
End ExprSlices.

(** The body of the loop of [Eq.toSql] for one entry, [args] being the
    named result: on an empty list a nil [args] becomes
    [[]interface{}{}]. *)
Definition Eq_entry_slice (useNotOpr : bool) (key : string) (val : Value)
           (args : slice) : result (string * slice) :=
  let equalOpr := if useNotOpr then "<>" else "=" in
  let inOpr := if useNotOpr then "NOT IN" else "IN" in
  let nullOpr := if useNotOpr then "IS NOT" else "IS" in
  let inEmptyExpr := if useNotOpr then "(1=1)" else "(1=0)" in
  match unwrap_Valuer val with
  | Err e => Err e
  | OK val =>
      if is_nil val then
        OK (key +++ " " +++ nullOpr +++ " NULL", args)
      else if isListType val then
        let valVal := list_elems val in
        if Nat.eqb (length valVal) 0 then
          OK (inEmptyExpr,
              match args with
              | nil_slice => slice_of []
              | slice_of _ => args
              end)
        else OK (key +++ " " +++ inOpr +++ " ("
                   +++ Placeholders (length valVal) +++ ")",
                 append_slice args valVal)
      else OK (key +++ " " +++ equalOpr +++ " ?", append_slice args [val])
  end.

Fixpoint Eq_loop_slice (useNotOpr : bool) (eq : list (string * Value))
         (exprs : list string) (args : slice)
  : result (list string * slice) :=
  match eq with
  | [] => OK (exprs, args)
  | (key, val) :: rest =>
      match Eq_entry_slice useNotOpr key val args with
      | Err e => Err e
      | OK (expr, args') =>
          Eq_loop_slice useNotOpr rest (exprs ++ [expr]) args'
      end
  end.

Definition Eq_toSql_slice (eq : list (string * Value)) (useNotOpr : bool)
  : result (string * slice) :=
  match Eq_loop_slice useNotOpr eq [] nil_slice with
  | Err e => Err e
  | OK (exprs, args) => OK (strings_Join exprs " AND ", args)
  end.

(** ** The hypothesis of argument and placeholder parity *)

(** The raw texts of a fragment carry one mark per argument supplied with
    them: the template of an [Expr] without a [Sqlizer] argument has as many
    marks as arguments, and one with a [Sqlizer] argument no more marks than
    arguments; the keys of a predicate map, the text segments of a
    concatenation, the name of a function and the type of a JSON cast, which
    come with no argument, have no mark; a [Sqlizer] implemented elsewhere
    returns as many marks as arguments. *)
Fixpoint raw_texts_ok (s : Fragment) : bool :=
  let key_ok (kv : string * Value) := Nat.eqb (marks (fst kv)) 0 in
  match s with
  | Expr sql args =>
      (if hasSqlizer args then Nat.leb (marks sql) (length args)
       else Nat.eqb (marks sql) (length args))
      && forallb (fun arg => match arg with
                             | VSqlizer g => raw_texts_ok g
                             | _ => true
                             end) args
  | Eq m | NotEq m | Lt m | LtOrEq m | Gt m | GtOrEq m => forallb key_ok m
  | And c | Or c => forallb raw_texts_ok c
  | ConcatExpr parts =>
      forallb (fun part => match part with
                           | VString p => Nat.eqb (marks p) 0
                           | VSqlizer g => raw_texts_ok g
                           | _ => true
                           end) parts
  | Fn name fargs => Nat.eqb (marks name) 0 && forallb raw_texts_ok fargs
  | JsonOp _ tpe => Nat.eqb (marks tpe) 0
  | Custom sql args _ => Nat.eqb (marks sql) (length args)
  end.

(** The render keeps parity: a text with as many marks as arguments. *)
Definition parity (r : rendered) : Prop :=
  match r with
  | OK (sql, args) => marks sql = length args
  | Err _ => True
  end.

(** The rendered text has no percent sign. *)
Definition plain (r : rendered) : Prop :=
  match r with
  | OK (sql, _) => has_percent sql = false
  | Err _ => True
  end.

Section Plain.
Variable json_Marshal : Value -> string + string.

(** The text of a rendered fragment has no percent sign. *)
Definition renders_plain (s : Fragment) : bool :=
  match ToSql json_Marshal s with
  | OK (sql, _) => negb (has_percent sql)
  | Err _ => true
  end.

(** No text that a template expansion of the fragment passes to
    [fmt.Fprintf] as a format has a percent sign. *)
Fixpoint splices_plain (s : Fragment) : bool :=
  match s with
  | Expr _ args =>
      forallb (fun arg => match arg with
                          | VSqlizer g => splices_plain g && renders_plain g
                          | _ => true
                          end) args
  | And c | Or c => forallb splices_plain c
  | ConcatExpr parts =>
      forallb (fun part => match part with
                           | VSqlizer g => splices_plain g
                           | _ => true
                           end) parts
  | Fn _ fargs => forallb splices_plain fargs
  | _ => true
  end.
End Plain.

(** A child of a combinator that is kept: its text is not empty. *)
Definition nonempty (r : string * list Value) : bool :=
  negb (String.eqb (fst r) "").

(** A marshaller for the examples: it knows the JSON text of nil and of
    the booleans and reports every other value as unsupported. *)
Definition sample_Marshal (v : Value) : string + string :=
  match v with
  | VNil => inl "null"
  | VBool true => inl "true"
  | VBool false => inl "false"
  | _ => inr "json: unsupported type"
  end.

(** ** The other Sqlizers of expr.go *)

Section Wrappers.
Variable ToSql : Fragment -> rendered.

(** [aliasExpr.ToSql]: [fmt.Sprintf("(%s) AS %s", sql, e.alias)] on the
    text of the wrapped [Sqlizer]. *)
Definition aliasExpr_ToSql (expr : Fragment) (alias : string) : rendered :=
  match ToSql expr with
  | Err e => Err e
  | OK (sql, args) => OK ("(" +++ sql +++ ") AS " +++ alias, args)
  end.

(** [lateralExpr.ToSql]: [fmt.Sprintf("LATERAL (%s) AS %s", sql, e.alias)]. *)
Definition lateralExpr_ToSql (expr : Fragment) (alias : string) : rendered :=
  match ToSql expr with
  | Err e => Err e
  | OK (sql, args) => OK ("LATERAL (" +++ sql +++ ") AS " +++ alias, args)
  end.

(** [any.ToSql]: [fmt.Sprintf("%s = ANY(%s)", any.column, p)] on the text of
    [any.args]. *)
Definition any_ToSql (column : string) (args : Fragment) : rendered :=
  match ToSql args with
  | Err e => Err e
  | OK (p, a) => OK (column +++ " = ANY(" +++ p +++ ")", a)
  end.

(** What the callback of [expr.ToSql] writes in place of a mark that meets
    [arg], and the arguments it appends. *)
Definition expr_piece (arg : Value) : result (string * list Value) :=
  match arg with
  | VSqlizer s =>
      match ToSql s with
      | Err e => Err e
      | OK (sql, vs) => OK (Fmt.Sprintf0 sql, vs)
      end
  | _ => OK ("?", [arg])
  end.

(** What [concatExpr.ToSql] adds for one part. *)
Definition concatExpr_part (part : Value) : result (string * list Value) :=
  match part with
  | VString p => OK (p, [])
  | VSqlizer p => ToSql p
  | _ => Err ErrNotStringOrSqlizer
  end.
End Wrappers.

(** [Between.ToSql]. *)
Definition Between_ToSql (field : string) (left right : Value) : rendered :=
  OK (field +++ " BETWEEN ? AND ?", [left; right]).

(** A template with its marks replaced, from the left, by the texts, one
    text per mark; the marks past the last text stay. *)
Fixpoint splice (sql : string) (texts : list string) : string :=
  match sql with
  | EmptyString => EmptyString
  | String c rest =>
      if Ascii.eqb c mark then
        match texts with
        | t :: texts' => t +++ splice rest texts'
        | [] => String c (splice rest [])
        end
      else String c (splice rest texts)
  end.

(** A render with its text between parentheses. *)
Definition parenthesized (r : rendered) : rendered :=
  match r with
  | OK (sql, args) => OK ("(" +++ sql +++ ")", args)
  | Err e => Err e
  end.

(** ** [exprs.AppendToSql] *)

(** The struct [expr]. *)
Record expr : Type := { expr_sql : string; expr_args : list Value }.

Section AppendToSql.
(** An [io.Writer]: its state, and [io.WriteString], which leaves the
    writer in a new state and may return an error. *)
Variable Writer : Type.
Variable WriteString : Writer -> string -> Writer * option error.

(** The loop of [exprs.AppendToSql], [i] being the index of the
    expression: the writer after the call, and the arguments or the
    error. *)
Fixpoint AppendToSql_loop (es : list expr) (i : nat) (w : Writer)
         (sep : string) (args : list Value)
  : Writer * result (list Value) :=
  match es with
  | [] => (w, OK args)
  | e :: rest =>
      let '(w1, err1) :=
        if Nat.ltb 0 i then WriteString w sep else (w, None) in
      match err1 with
      | Some err => (w1, Err err)
      | None =>
          let '(w2, err2) := WriteString w1 (expr_sql e) in
          match err2 with
          | Some err => (w2, Err err)
          | None => AppendToSql_loop rest (S i) w2 sep (args ++ expr_args e)
          end
      end
  end.

Definition AppendToSql (es : list expr) (w : Writer) (sep : string)
           (args : list Value) : Writer * result (list Value) :=
  AppendToSql_loop es 0 w sep args.
End AppendToSql.

(** [WriteString] of a [bytes.Buffer]: it appends and never fails. *)
Definition Buffer_WriteString (buf : string) (s : string)
  : string * option error :=
  (buf +++ s, None).

(** The expression as a [Sqlizer]. *)
Definition Sqlizer_of_expr (e : expr) : Fragment :=
  Expr (expr_sql e) (expr_args e).

(** ** [SelectBuilder.ToSql] *)

Module Select.

(** [strconv.FormatUint(n, 10)]. *)
Definition FormatUint (n : N) : string :=
  NilEmpty.string_of_uint (N.to_uint n).

(** The struct [SelectBuilder].  [placeholderFormat] is the
    [ReplacePlaceholders] method of the format that the embedded
    [StatementBuilderType] holds; [limit] and [offset] are [uint64]. *)
Record SelectBuilder : Type := {
  placeholderFormat : string -> result string;
  prefixes : list expr;
  distinct : bool;
  options : list string;
  columns : list Fragment;
  fromParts : list Fragment;
  joins : list Fragment;
  whereParts : list Fragment;
  groupBys : list string;
  havingParts : list Fragment;
  orderBys : list string;
  union : list Fragment;
  unionAll : list Fragment;
  limit : N;
  limitValid : bool;
  offset : N;
  offsetValid : bool;
  suffixes : list expr
}.

(** [Limit]: [b.limit = limit; b.limitValid = true]. *)
Definition Limit (b : SelectBuilder) (n : N) : SelectBuilder :=
  {| placeholderFormat := placeholderFormat b; prefixes := prefixes b;
     distinct := distinct b; options := options b; columns := columns b;
     fromParts := fromParts b; joins := joins b; whereParts := whereParts b;
     groupBys := groupBys b; havingParts := havingParts b;
     orderBys := orderBys b; union := union b; unionAll := unionAll b;
     limit := n; limitValid := true;
     offset := offset b; offsetValid := offsetValid b;
     suffixes := suffixes b |}.

(** [Offset]: [b.offset = offset; b.offsetValid = true]. *)
Definition Offset (b : SelectBuilder) (n : N) : SelectBuilder :=
  {| placeholderFormat := placeholderFormat b; prefixes := prefixes b;
     distinct := distinct b; options := options b; columns := columns b;
     fromParts := fromParts b; joins := joins b; whereParts := whereParts b;
     groupBys := groupBys b; havingParts := havingParts b;
     orderBys := orderBys b; union := union b; unionAll := unionAll b;
     limit := limit b; limitValid := limitValid b;
     offset := n; offsetValid := true;
     suffixes := suffixes b |}.

Section ToSql.
(** [appendToSql(parts, w, sep, args)], whose code is not among the
    sources, on a [bytes.Buffer]: the buffer after the call, and the
    arguments or the error. *)
Variable appendToSql :
  list Fragment -> string -> string -> list Value
  -> string * result (list Value).

(** [if len(parts) > 0 { sql.WriteString(lead); args, err =
    appendToSql(parts, sql, sep, args); if err != nil { return } }]. *)
Definition clause (parts : list Fragment) (lead sep : string)
           (st : string * list Value) : result (string * list Value) :=
  let '(sql, args) := st in
  if Nat.ltb 0 (length parts) then
    match appendToSql parts (sql +++ lead) sep args with
    | (sql', OK args') => OK (sql', args')
    | (_, Err e) => Err e
    end
  else OK st.

(** [if len(names) > 0 { sql.WriteString(lead);
    sql.WriteString(strings.Join(names, ", ")) }]. *)
Definition names_clause (names : list string) (lead : string)
           (sql : string) : string :=
  if Nat.ltb 0 (length names)
  then sql +++ lead +++ strings_Join names ", "
  else sql.

(** [args, _ = es.AppendToSql(sql, " ", args)]: the error is dropped. *)
Definition append_exprs (es : list expr) (sql : string)
           (args : list Value) : string * list Value :=
  match AppendToSql string Buffer_WriteString es sql " " args with
  | (sql', OK args') => (sql', args')
  | (sql', Err _) => (sql', [])
  end.

Definition and_then (r : result (string * list Value))
           (k : string * list Value -> result (string * list Value))
  : result (string * list Value) :=
  match r with
  | OK st => k st
  | Err e => Err e
  end.

Definition ToSql (b : SelectBuilder) : rendered :=
  if Nat.eqb (length (columns b)) 0 then
    Err (ErrSqlizer "select statements must have at least one result column")
  else
    let '(sql, args) :=
      if Nat.ltb 0 (length (prefixes b)) then
        let '(sql, args) := append_exprs (prefixes b) "" [] in
        (sql +++ " ", args)
      else ("", []) in
    let sql := sql +++ "SELECT " in
    let sql := if distinct b then sql +++ "DISTINCT " else sql in
    let sql :=
      if Nat.ltb 0 (length (options b))
      then sql +++ strings_Join (options b) " " +++ " "
      else sql in
    and_then (clause (columns b) "" ", " (sql, args)) (fun st =>
    and_then (clause (fromParts b) " FROM " ", " st) (fun st =>
    and_then (clause (joins b) " " " " st) (fun st =>
    and_then (clause (whereParts b) " WHERE " " AND " st) (fun st =>
    and_then (clause (union b) " UNION " " UNION " st) (fun st =>
    and_then (clause (unionAll b) " UNION ALL " " UNION ALL " st) (fun st =>
    let '(sql, args) := st in
    let sql := names_clause (groupBys b) " GROUP BY " sql in
    and_then (clause (havingParts b) " HAVING " " AND " (sql, args)) (fun st =>
    let '(sql, args) := st in
    let sql := names_clause (orderBys b) " ORDER BY " sql in
    let sql :=
      if limitValid b && negb (N.eqb (limit b) 0)
      then sql +++ " LIMIT " +++ FormatUint (limit b) else sql in
    let sql :=
      if offsetValid b && negb (N.eqb (offset b) 0)
      then sql +++ " OFFSET " +++ FormatUint (offset b) else sql in
    let '(sql, args) :=
      if Nat.ltb 0 (length (suffixes b))
      then append_exprs (suffixes b) (sql +++ " ") args
      else (sql, args) in
    match placeholderFormat b sql with
    | OK sqlStr => OK (sqlStr, args)
    | Err e => Err e
    end))))))).

End ToSql.

(** [Question.ReplacePlaceholders]: the text as it is. *)
Definition Question (sql : string) : result string := OK sql.

End Select.

(** An [appendToSql] for the examples: it writes the texts of the parts,
    separated by [sep], and appends their arguments. *)
Fixpoint sample_appendToSql_loop (parts : list Fragment) (i : nat)
         (buf sep : string) (args : list Value)
  : string * result (list Value) :=
  match parts with
  | [] => (buf, OK args)
  | p :: rest =>
      match ToSql sample_Marshal p with
      | Err e => (buf, Err e)
      | OK (sql, vs) =>
          sample_appendToSql_loop
            rest (S i) ((if Nat.ltb 0 i then buf +++ sep else buf) +++ sql)
            sep (args ++ vs)
      end
  end.

Definition sample_appendToSql (parts : list Fragment) (buf sep : string)
           (args : list Value) : string * result (list Value) :=
  sample_appendToSql_loop parts 0 buf sep args.

(** A builder for the examples: [SELECT a FROM t WHERE id = ?] with a
    suffix. *)
Definition sample_select : Select.SelectBuilder :=
  {| Select.placeholderFormat := Select.Question;
     Select.prefixes := [];
     Select.distinct := false;
     Select.options := [];
     Select.columns := [Expr "a" []];
     Select.fromParts := [Expr "t" []];
     Select.joins := [];
     Select.whereParts := [Eq [("id", VInt 1)]];
     Select.groupBys := [];
     Select.havingParts := [];
     Select.orderBys := [];
     Select.union := [];
     Select.unionAll := [];
     Select.limit := 0%N;
     Select.limitValid := false;
     Select.offset := 0%N;
     Select.offsetValid := false;
     Select.suffixes := [{| expr_sql := "FOR UPDATE OF ?";
                            expr_args := [VSqlizer (Expr "t" [])] |}] |}.

(** ** Lists *)

Lemma list_all_Forall (A : Type) (P : A -> Prop) (l : list A) :
  list_all A P l -> Forall P l.
Proof. induction 1; constructor; assumption. Qed.

(** ** Texts and marks *)

Lemma append_nil_r (s : string) : s +++ "" = s.
Proof. induction s as [|c s IH]; simpl; [reflexivity | now rewrite IH]. Qed.

Lemma append_assoc (a b c : string) : (a +++ b) +++ c = a +++ b +++ c.
Proof. induction a as [|x a IH]; simpl; [reflexivity | now rewrite IH]. Qed.

Lemma marks_app (a b : string) : marks (a +++ b) = marks a + marks b.
Proof.
  induction a as [|x a IH]; simpl; [reflexivity|].
  rewrite IH. lia.
Qed.

Lemma has_percent_app (a b : string) :
  has_percent (a +++ b) = has_percent a || has_percent b.
Proof.
  induction a as [|x a IH]; simpl; [reflexivity|].
  rewrite IH. now rewrite orb_assoc.
Qed.

Lemma append_eq_nil (a b : string) : a +++ b = "" -> a = "" /\ b = "".
Proof. destruct a; simpl; [auto | discriminate]. Qed.

(** A format without a percent sign is written as it is. *)
Lemma Sprintf0_plain (format : string) :
  has_percent format = false -> Fmt.Sprintf0 format = format.
Proof.
  unfold Fmt.Sprintf0.
  induction format as [|c rest IH]; simpl; [reflexivity|].
  intros H. apply orb_false_iff in H as [Hc Hrest].
  rewrite Hc. now rewrite IH.
Qed.

(** ** The scan of a template *)

Section ScanLemmas.
Context {St : Type}.
Variable replace : string -> nat -> St -> result (string * St).

(** Scanning a template in two pieces. *)
Lemma replacePlaceholders_from_app (a b : string) :
  forall i buf st,
    replacePlaceholders_from replace (a +++ b) i buf st =
    match replacePlaceholders_from replace a i buf st with
    | OK (buf', st') =>
        replacePlaceholders_from replace b (i + marks a) buf' st'
    | Err e => Err e
    end.
Proof.
  induction a as [|c a IH]; intros i buf st; simpl.
  - now rewrite Nat.add_0_r.
  - destruct (Ascii.eqb c mark).
    + destruct (replace buf (S i) st) as [[buf' st']|e]; [|reflexivity].
      rewrite IH. simpl. now rewrite Nat.add_succ_r.
    + rewrite IH. reflexivity.
Qed.
End ScanLemmas.

(** ** Template expansion *)

Section ExpandLemmas.
Variable toSql : Fragment -> rendered.

Lemma expr_index_nth (e_args : list Value) :
  forall n buf args,
    expr_index toSql e_args n buf args =
    match nth_error e_args n with
    | Some arg => expr_switch toSql arg buf args
    | None => Err ErrIndexOutOfRange
    end.
Proof.
  induction e_args as [|a l IH]; intros [|n] buf args; simpl; auto.
Qed.

Lemma hasSqlizer_false (args : list Value) :
  hasSqlizer args = false <-> Forall (fun a => is_Sqlizer a = false) args.
Proof.
  induction args as [|a l IH]; simpl.
  - split; auto.
  - destruct (is_Sqlizer a) eqn:E.
    + split; [discriminate | intros H; inversion H; congruence].
    + rewrite IH. split; [auto | intros H; now inversion H].
Qed.

Lemma expr_switch_scalar (arg : Value) (buf : string) (args : list Value) :
  is_Sqlizer arg = false ->
  expr_switch toSql arg buf args = OK (buf +++ "?", args ++ [arg]).
Proof. destruct arg; simpl; intros H; try reflexivity; discriminate. Qed.

(** Within the arguments the callback switches on [e.args[i-1]]: the
    index is never out of range. *)
Lemma expr_replace_in_range (e_args : list Value) (buf : string) (i : nat)
      (args : list Value) :
  1 <= i <= length e_args ->
  exists arg,
    nth_error e_args (i - 1) = Some arg /\
    expr_replace toSql e_args buf i args = expr_switch toSql arg buf args.
Proof.
  intros [H1 Hi]. unfold expr_replace.
  destruct (Nat.ltb (length e_args) i) eqn:E.
  { apply Nat.ltb_lt in E. lia. }
  rewrite expr_index_nth.
  destruct (nth_error e_args (i - 1)) as [arg|] eqn:En; [eauto|].
  apply nth_error_None in En. lia.
Qed.

(** A nested fragment whose text has no percent sign is spliced as it is,
    its arguments appended. *)
Lemma expr_switch_plain (g : Fragment) (sql buf : string)
      (vs args : list Value) :
  toSql g = OK (sql, vs) ->
  has_percent sql = false ->
  expr_switch toSql (VSqlizer g) buf args = OK (buf +++ sql, args ++ vs).
Proof. intros Hg Hp. simpl. now rewrite Hg, Sprintf0_plain. Qed.

Lemma mark_step (buf rest : string) :
  (buf +++ "?") +++ rest = buf +++ String mark rest.
Proof. now rewrite append_assoc. Qed.

Lemma char_step (buf rest : string) (c : ascii) :
  (buf +++ String c "") +++ rest = buf +++ String c rest.
Proof. now rewrite append_assoc. Qed.

(** Past the last argument the scan copies the rest of the template. *)
Lemma expand_from_beyond (e_args : list Value) :
  forall sql i buf args,
    length e_args <= i ->
    replacePlaceholders_from (expr_replace toSql e_args) sql i buf args =
    OK (buf +++ sql, args).
Proof.
  induction sql as [|c rest IH]; intros i buf args Hi; simpl.
  - now rewrite append_nil_r.
  - destruct (Ascii.eqb c mark) eqn:Ec.
    + apply Ascii.eqb_eq in Ec. subst c. unfold expr_replace at 1.
      destruct (Nat.ltb (length e_args) (S i)) eqn:El.
      * rewrite IH by lia. now rewrite mark_step.
      * apply Nat.ltb_ge in El. lia.
    + rewrite IH by lia. now rewrite char_step.
Qed.

(** Without a [Sqlizer] among the arguments the expansion copies the
    template and binds one argument per mark, as far as they go. *)
Lemma expand_from_scalars (e_args : list Value) :
  hasSqlizer e_args = false ->
  forall sql i buf args,
    replacePlaceholders_from (expr_replace toSql e_args) sql i buf args =
    OK (buf +++ sql, args ++ firstn (marks sql) (skipn i e_args)).
Proof.
  intros Hs. apply hasSqlizer_false in Hs.
  induction sql as [|c rest IH]; intros i buf args; simpl.
  - now rewrite append_nil_r, app_nil_r.
  - destruct (Ascii.eqb c mark) eqn:Ec.
    + apply Ascii.eqb_eq in Ec. subst c.
      unfold expr_replace at 1.
      destruct (Nat.ltb (length e_args) (S i)) eqn:El.
      * apply Nat.ltb_lt in El.
        rewrite IH, mark_step.
        rewrite !skipn_all2 by lia. now rewrite !firstn_nil.
      * apply Nat.ltb_ge in El.
        rewrite expr_index_nth. simpl. rewrite Nat.sub_0_r.
        destruct (nth_error e_args i) as [v|] eqn:En.
        2:{ apply nth_error_None in En. lia. }
        rewrite expr_switch_scalar.
        2:{ rewrite Forall_forall in Hs. apply Hs. eapply nth_error_In; eauto. }
        rewrite IH, mark_step. do 2 f_equal.
        rewrite <- app_assoc. f_equal. simpl.
        assert (Hk : skipn i e_args = v :: skipn (S i) e_args).
        { clear - En. revert i En.
          induction e_args as [|a l IHl]; intros [|i] En; simpl in *;
            try discriminate.
          - now inversion En.
          - now apply IHl. }
        now rewrite Hk.
    + rewrite IH, char_step. reflexivity.
Qed.

Lemma expand_scalars (sql : string) (e_args : list Value) :
  hasSqlizer e_args = false ->
  expr_expand toSql sql e_args = OK (sql, firstn (marks sql) e_args).
Proof.
  intros Hs. unfold expr_expand, replacePlaceholders.
  now rewrite expand_from_scalars.
Qed.

Lemma skipn_nth_error (A : Type) (l : list A) :
  forall i x, nth_error l i = Some x -> skipn i l = x :: skipn (S i) l.
Proof.
  induction l as [|a l IH]; intros [|i] x H; simpl in *; try discriminate.
  - now inversion H.
  - now apply IH.
Qed.

(** The callback at the mark of position [S i], by the argument it meets. *)
Lemma expr_replace_step (e_args : list Value) (i : nat) (buf : string)
      (args : list Value) :
  expr_replace toSql e_args buf (S i) args =
  match nth_error e_args i with
  | Some arg => expr_switch toSql arg buf args
  | None => OK (buf +++ "?", args)
  end.
Proof.
  unfold expr_replace.
  destruct (Nat.ltb (length e_args) (S i)) eqn:El.
  - apply Nat.ltb_lt in El.
    destruct (nth_error e_args i) eqn:En; [|reflexivity].
    assert (i < length e_args) by (apply nth_error_Some; congruence). lia.
  - apply Nat.ltb_ge in El. rewrite expr_index_nth. simpl.
    rewrite Nat.sub_0_r.
    destruct (nth_error e_args i) eqn:En; [reflexivity|].
    apply nth_error_None in En. lia.
Qed.

(** ** Combinators *)

Lemma conj_loop_ok (c : list Fragment) (rs : list (string * list Value)) :
  Forall2 (fun s r => toSql s = OK r) c rs ->
  forall sqlParts args,
    conj_loop toSql c sqlParts args =
    OK (sqlParts ++ map fst (filter nonempty rs),
        args ++ concat (map snd (filter nonempty rs))).
Proof.
  induction 1 as [|s [partSql partArgs] c rs Hs _ IH]; intros sqlParts args;
    simpl.
  - now rewrite !app_nil_r.
  - rewrite Hs.
    assert (N : nonempty (partSql, partArgs) = negb (String.eqb partSql ""))
      by reflexivity.
    destruct (String.eqb partSql "") eqn:E; rewrite N; simpl.
    + apply IH.
    + rewrite IH. now rewrite <- !app_assoc.
Qed.

Lemma conj_loop_err (pre post : list Fragment) (s : Fragment) (e : error) :
  Forall (fun x => exists r, toSql x = OK r) pre ->
  toSql s = Err e ->
  forall sqlParts args,
    conj_loop toSql (pre ++ s :: post) sqlParts args = Err e.
Proof.
  intros Hpre Hs. induction Hpre as [|x pre [[p a] Hx] _ IH];
    intros sqlParts args; simpl.
  - now rewrite Hs.
  - rewrite Hx. destruct (String.eqb p ""); apply IH.
Qed.

Lemma conj_join_ok (c : list Fragment) (rs : list (string * list Value))
      (sep : string) :
  Forall2 (fun s r => toSql s = OK r) c rs ->
  conj_join toSql c sep =
  match filter nonempty rs with
  | [] => OK ("", [])
  | kept => OK ("(" +++ strings_Join (map fst kept) sep +++ ")",
                concat (map snd kept))
  end.
Proof.
  intros H. unfold conj_join. rewrite (conj_loop_ok _ _ H). simpl.
  destruct (filter nonempty rs); reflexivity.
Qed.

End ExpandLemmas.

(** ** The predicate builders *)

Lemma marks_Placeholders (n : nat) : marks (Placeholders n) = n.
Proof.
  unfold Placeholders, strings_Join.
  induction n as [|n IH]; [reflexivity|].
  destruct n as [|n]; [reflexivity|].
  change (repeat "?" (S (S n))) with ("?" :: repeat "?" (S n)).
  change (repeat "?" (S n)) with ("?" :: repeat "?" n) in *.
  cbn [String.concat] in *. rewrite !marks_app. rewrite IH. reflexivity.
Qed.

Lemma Eq_entry_args (useNotOpr : bool) (key : string) (val : Value)
      (args : list Value) :
  Eq_entry useNotOpr key val args =
  match Eq_entry useNotOpr key val [] with
  | OK (expr, vs) => OK (expr, args ++ vs)
  | Err e => Err e
  end.
Proof.
  unfold Eq_entry. destruct (unwrap_Valuer val) as [v|e]; [|reflexivity].
  destruct (is_nil v); [now rewrite app_nil_r|].
  destruct (isListType v); [|reflexivity].
  destruct (Nat.eqb (length (list_elems v)) 0); [now rewrite app_nil_r|].
  reflexivity.
Qed.

Lemma Eq_loop_ok (useNotOpr : bool) (m : list (string * Value))
      (rs : list (string * list Value)) :
  Forall2 (fun kv r => Eq_entry useNotOpr (fst kv) (snd kv) [] = OK r) m rs ->
  forall exprs args,
    Eq_loop useNotOpr m exprs args =
    OK (exprs ++ map fst rs, args ++ concat (map snd rs)).
Proof.
  induction 1 as [|[key val] [expr vs] m rs Hkv _ IH]; intros exprs args;
    simpl.
  - now rewrite !app_nil_r.
  - simpl in Hkv. rewrite Eq_entry_args, Hkv, IH.
    now rewrite <- !app_assoc.
Qed.

Lemma Lt_entry_args (opr key : string) (val : Value) (args : list Value) :
  Lt_entry opr key val args =
  match Lt_entry opr key val [] with
  | OK (expr, vs) => OK (expr, args ++ vs)
  | Err e => Err e
  end.
Proof.
  unfold Lt_entry. destruct (unwrap_Valuer val) as [v|e]; [|reflexivity].
  destruct (is_nil v); [reflexivity|].
  destruct (isListType v); reflexivity.
Qed.

Lemma Lt_loop_ok (opr : string) (m : list (string * Value))
      (rs : list (string * list Value)) :
  Forall2 (fun kv r => Lt_entry opr (fst kv) (snd kv) [] = OK r) m rs ->
  forall exprs args,
    Lt_loop opr m exprs args =
    OK (exprs ++ map fst rs, args ++ concat (map snd rs)).
Proof.
  induction 1 as [|[key val] [expr vs] m rs Hkv _ IH]; intros exprs args;
    simpl.
  - now rewrite !app_nil_r.
  - simpl in Hkv. rewrite Lt_entry_args, Hkv, IH.
    now rewrite <- !app_assoc.
Qed.

(** A loop over the entries fails as soon as one entry does. *)
Lemma Lt_loop_fails (opr : string) (m : list (string * Value))
      (key : string) (val : Value) (e : error) :
  In (key, val) m ->
  Lt_entry opr key val [] = Err e ->
  forall exprs args, exists e', Lt_loop opr m exprs args = Err e'.
Proof.
  intros Hin He. induction m as [|[k v] m IH]; [contradiction|].
  intros exprs args. simpl. rewrite Lt_entry_args.
  destruct (Lt_entry opr k v []) as [[expr vs]|e0] eqn:E; [|eauto].
  destruct Hin as [Heq|Hin]; [|now apply IH].
  inversion Heq; subst. congruence.
Qed.

(** ** Parity of marks and arguments *)

Lemma marks_Join (elems : list string) (sep : string) :
  marks sep = 0 ->
  marks (strings_Join elems sep) = list_sum (map marks elems).
Proof.
  intros Hsep. unfold strings_Join.
  induction elems as [|x l IH]; [reflexivity|].
  destruct l as [|y l]; [simpl; lia|].
  change (String.concat sep (x :: y :: l))
    with (x +++ sep +++ String.concat sep (y :: l)).
  rewrite !marks_app, IH, Hsep. simpl. lia.
Qed.

Lemma list_sum_snoc (l : list nat) (n : nat) :
  list_sum (l ++ [n]) = list_sum l + n.
Proof. rewrite list_sum_app. simpl. lia. Qed.

Lemma Eq_entry_parity (useNotOpr : bool) (key : string) (val : Value) :
  marks key = 0 ->
  match Eq_entry useNotOpr key val [] with
  | OK (expr, vs) => marks expr = length vs
  | Err _ => True
  end.
Proof.
  intros Hkey. unfold Eq_entry.
  destruct (unwrap_Valuer val) as [v|e]; [|exact I].
  destruct (is_nil v).
  { rewrite !marks_app, Hkey. now destruct useNotOpr. }
  destruct (isListType v).
  - destruct (Nat.eqb (length (list_elems v)) 0).
    + now destruct useNotOpr.
    + rewrite !marks_app, Hkey, marks_Placeholders.
      destruct useNotOpr; simpl; lia.
  - rewrite !marks_app, Hkey. now destruct useNotOpr.
Qed.

Lemma Eq_loop_parity (useNotOpr : bool) (m : list (string * Value)) :
  forallb (fun kv => Nat.eqb (marks (fst kv)) 0) m = true ->
  forall exprs args exprs' args',
    list_sum (map marks exprs) = length args ->
    Eq_loop useNotOpr m exprs args = OK (exprs', args') ->
    list_sum (map marks exprs') = length args'.
Proof.
  induction m as [|[key val] m IH]; simpl;
    intros Hk exprs args exprs' args' Hinv.
  - intros H; inversion H; now subst.
  - apply andb_true_iff in Hk as [Hkey Hk]. apply Nat.eqb_eq in Hkey.
    rewrite Eq_entry_args.
    pose proof (Eq_entry_parity useNotOpr key val Hkey) as Hp.
    destruct (Eq_entry useNotOpr key val []) as [[expr vs]|e];
      [|discriminate].
    apply IH; [assumption|].
    rewrite map_app, list_sum_app, length_app. simpl. lia.
Qed.

Lemma Eq_toSql_parity (useNotOpr : bool) (m : list (string * Value)) :
  forallb (fun kv => Nat.eqb (marks (fst kv)) 0) m = true ->
  parity (Eq_toSql m useNotOpr).
Proof.
  intros Hk. unfold Eq_toSql, parity.
  destruct (Eq_loop useNotOpr m [] []) as [[exprs args]|e] eqn:E; [|exact I].
  rewrite marks_Join by reflexivity.
  now apply (Eq_loop_parity useNotOpr m Hk [] [] exprs args).
Qed.

Lemma Lt_loop_parity (opr : string) (m : list (string * Value)) :
  marks opr = 0 ->
  forallb (fun kv => Nat.eqb (marks (fst kv)) 0) m = true ->
  forall exprs args exprs' args',
    list_sum (map marks exprs) = length args ->
    Lt_loop opr m exprs args = OK (exprs', args') ->
    list_sum (map marks exprs') = length args'.
Proof.
  intros Hopr.
  induction m as [|[key val] m IH]; simpl;
    intros Hk exprs args exprs' args' Hinv.
  - intros H; inversion H; now subst.
  - apply andb_true_iff in Hk as [Hkey Hk]. apply Nat.eqb_eq in Hkey.
    unfold Lt_entry.
    destruct (unwrap_Valuer val) as [v|e]; [|discriminate].
    destruct (is_nil v); [discriminate|].
    destruct (isListType v); [discriminate|].
    apply IH; [assumption|].
    rewrite map_app, list_sum_app, !length_app. cbn [map list_sum length].
    rewrite !marks_app, Hkey, Hopr. simpl. lia.
Qed.

Lemma Lt_toSql_parity (m : list (string * Value)) (opposite orEq : bool) :
  forallb (fun kv => Nat.eqb (marks (fst kv)) 0) m = true ->
  parity (Lt_toSql m opposite orEq).
Proof.
  intros Hk. unfold Lt_toSql, parity.
  destruct (Lt_loop _ m [] []) as [[exprs args]|e] eqn:E; [|exact I].
  rewrite marks_Join by reflexivity.
  assert (Hopr : marks (Lt_opr opposite orEq) = 0)
    by now destruct opposite, orEq.
  now apply (Lt_loop_parity _ m Hopr Hk [] [] exprs args).
Qed.

Section ParityLemmas.
Variable toSql : Fragment -> rendered.

Lemma conj_loop_parity (c : list Fragment) :
  Forall (fun s => parity (toSql s)) c ->
  forall sqlParts args sqlParts' args',
    list_sum (map marks sqlParts) = length args ->
    conj_loop toSql c sqlParts args = OK (sqlParts', args') ->
    list_sum (map marks sqlParts') = length args'.
Proof.
  induction 1 as [|s c Hs _ IH]; simpl;
    intros sqlParts args sqlParts' args' Hinv.
  - intros H; inversion H; now subst.
  - destruct (toSql s) as [[partSql partArgs]|e]; [|discriminate].
    simpl in Hs.
    destruct (String.eqb partSql ""); apply IH; [assumption|].
    rewrite map_app, list_sum_app, length_app. simpl. lia.
Qed.

Lemma conj_join_parity (c : list Fragment) (sep : string) :
  marks sep = 0 ->
  Forall (fun s => parity (toSql s)) c ->
  parity (conj_join toSql c sep).
Proof.
  intros Hsep Hc. unfold conj_join.
  destruct (conj_loop toSql c [] []) as [[sqlParts args]|e] eqn:E; [|exact I].
  pose proof (conj_loop_parity c Hc [] [] sqlParts args eq_refl E) as Hp.
  destruct (Nat.ltb 0 (length sqlParts)) eqn:El; simpl.
  - rewrite !marks_app, marks_Join by assumption. simpl. lia.
  - apply Nat.ltb_ge in El. destruct sqlParts; simpl in *; [lia|lia].
Qed.

Lemma concatExpr_loop_parity (ce : list Value) :
  Forall (fun part => match part with
                      | VString p => marks p = 0
                      | VSqlizer g => parity (toSql g)
                      | _ => True
                      end) ce ->
  forall sql args,
    marks sql = length args ->
    parity (concatExpr_loop toSql ce sql args).
Proof.
  induction 1 as [|part ce Hpart _ IH]; simpl; intros sql args Hinv.
  - exact Hinv.
  - destruct part; try exact I.
    + apply IH. rewrite marks_app. lia.
    + destruct (toSql f) as [[pSql pArgs]|e]; [|exact I].
      simpl in Hpart. apply IH. rewrite marks_app, length_app. lia.
Qed.

Lemma fn_loop_parity (fargs : list Fragment) :
  Forall (fun s => parity (toSql s)) fargs ->
  forall a sql args,
    marks sql = length args ->
    parity (fn_loop toSql fargs a sql args).
Proof.
  induction 1 as [|s fargs Hs _ IH]; simpl; intros a sql args Hinv.
  - exact Hinv.
  - destruct (toSql s) as [[aSql aArgs]|e]; [|exact I].
    simpl in Hs. apply IH.
    destruct (Nat.ltb 0 a); rewrite !marks_app, length_app; simpl; lia.
Qed.

Lemma fn_ToSql_parity (name : string) (fargs : list Fragment) :
  marks name = 0 ->
  Forall (fun s => parity (toSql s)) fargs ->
  parity (fn_ToSql toSql name fargs).
Proof.
  intros Hname Hf. unfold fn_ToSql.
  pose proof (fn_loop_parity fargs Hf 0 (name +++ "(") []) as Hp.
  destruct (fn_loop toSql fargs 0 (name +++ "(") []) as [[sql args]|e];
    [|exact I].
  simpl in *. rewrite marks_app. simpl.
  rewrite Hp; [lia|]. rewrite marks_app, Hname. reflexivity.
Qed.

(** The expansion keeps parity when every mark meets an argument and
    every nested fragment renders, with parity, to a text without a percent
    sign. *)
Lemma expand_from_parity (e_args : list Value) :
  Forall (fun arg => forall g, arg = VSqlizer g ->
                               parity (toSql g) /\ plain (toSql g)) e_args ->
  forall sql i buf args,
    i + marks sql <= length e_args ->
    marks buf = length args ->
    parity (replacePlaceholders_from (expr_replace toSql e_args)
                                     sql i buf args).
Proof.
  intros Hargs. induction sql as [|c rest IH]; intros i buf args Hi Hinv; simpl.
  - exact Hinv.
  - simpl in Hi. destruct (Ascii.eqb c mark) eqn:Ec.
    + unfold expr_replace at 1.
      destruct (Nat.ltb (length e_args) (S i)) eqn:El.
      { apply Nat.ltb_lt in El. lia. }
      rewrite expr_index_nth. simpl. rewrite Nat.sub_0_r.
      destruct (nth_error e_args i) as [arg|] eqn:En; [|exact I].
      assert (Harg : forall g, arg = VSqlizer g ->
                               parity (toSql g) /\ plain (toSql g)).
      { rewrite Forall_forall in Hargs. apply Hargs.
        eapply nth_error_In; eauto. }
      destruct arg as [ | | | | | | |g]; simpl;
        try (apply IH; [lia | rewrite marks_app, length_app; simpl; lia]).
      destruct (Harg g eq_refl) as [Hpar Hpl].
      destruct (toSql g) as [[sql vs]|e]; [|exact I].
      simpl in Hpar, Hpl. apply IH; [lia|].
      rewrite marks_app, length_app, Sprintf0_plain by assumption. lia.
    + apply IH; [lia|]. rewrite marks_app. simpl. rewrite Ec. simpl. lia.
Qed.

End ParityLemmas.

Section Parity.
Variable json_Marshal : Value -> string + string.

(** Under the hypothesis on the raw texts, every render keeps parity as
    long as no template expansion passes a text with a percent sign to
    [fmt.Fprintf]. *)
Lemma parity_when_splices_plain :
  (forall v : Value,
      forall g, v = VSqlizer g ->
                raw_texts_ok g = true -> splices_plain json_Marshal g = true ->
                parity (ToSql json_Marshal g))
  /\
  (forall s : Fragment,
      raw_texts_ok s = true -> splices_plain json_Marshal s = true ->
      parity (ToSql json_Marshal s)).
Proof.
  assert (Hchildren : forall c : list Fragment,
             list_all Fragment
               (fun s => raw_texts_ok s = true ->
                         splices_plain json_Marshal s = true ->
                         parity (ToSql json_Marshal s)) c ->
             forallb raw_texts_ok c = true ->
             forallb (splices_plain json_Marshal) c = true ->
             Forall (fun s => parity (ToSql json_Marshal s)) c).
  { intros c IH Hl Hp. apply list_all_Forall in IH.
    rewrite forallb_forall in Hl, Hp. rewrite Forall_forall in *.
    intros s Hs. auto. }
  apply Value_Fragment_ind; intros; try discriminate.
  - (* VSqlizer *) match goal with E : VSqlizer _ = VSqlizer _ |- _ =>
      inversion E; subst end. auto.
  - (* Expr *)
    rename H into IH, H0 into Hl, H1 into Hp.
    apply list_all_Forall in IH.
    cbn [raw_texts_ok] in Hl. apply andb_true_iff in Hl as [Hm Hl].
    cbn [splices_plain] in Hp.
    rewrite forallb_forall in Hl, Hp. rewrite Forall_forall in IH.
    cbn [ToSql]. unfold expr_ToSql.
    destruct (hasSqlizer args) eqn:Hs; simpl.
    + apply Nat.leb_le in Hm.
      unfold expr_expand, replacePlaceholders.
      apply expand_from_parity; [|simpl; lia|reflexivity].
      rewrite Forall_forall. intros arg Hin g ->.
      specialize (Hl _ Hin). specialize (Hp _ Hin). simpl in Hl, Hp.
      apply andb_true_iff in Hp as [Hp Hr].
      split; [now apply (IH _ Hin g)|].
      unfold renders_plain in Hr. unfold plain.
      destruct (ToSql json_Marshal g) as [[t a]|e]; [|exact I].
      now apply negb_true_iff in Hr.
    + now apply Nat.eqb_eq in Hm.
  - apply Eq_toSql_parity. assumption.
  - apply Eq_toSql_parity. assumption.
  - apply Lt_toSql_parity. assumption.
  - apply Lt_toSql_parity. assumption.
  - apply Lt_toSql_parity. assumption.
  - apply Lt_toSql_parity. assumption.
  - (* And *) cbn [ToSql]. apply conj_join_parity; [reflexivity|].
    now apply Hchildren.
  - (* Or *) cbn [ToSql]. apply conj_join_parity; [reflexivity|].
    now apply Hchildren.
  - (* ConcatExpr *)
    rename H into IH, H0 into Hl, H1 into Hp.
    apply list_all_Forall in IH.
    cbn [raw_texts_ok] in Hl. cbn [splices_plain] in Hp.
    rewrite forallb_forall in Hl, Hp. rewrite Forall_forall in IH.
    cbn [ToSql]. unfold concatExpr_ToSql.
    apply concatExpr_loop_parity; [|reflexivity].
    rewrite Forall_forall. intros part Hin.
    specialize (Hl _ Hin). specialize (Hp _ Hin).
    destruct part; try exact I.
    + now apply Nat.eqb_eq in Hl.
    + now apply (IH _ Hin f).
  - (* Fn *)
    cbn [raw_texts_ok] in *. cbn [splices_plain] in *.
    match goal with Hl : _ && _ = true |- _ =>
      apply andb_true_iff in Hl as [Hn Hl] end.
    apply Nat.eqb_eq in Hn.
    cbn [ToSql]. apply fn_ToSql_parity; [assumption|].
    now apply Hchildren.
  - (* JsonOp *)
    cbn [raw_texts_ok] in *.
    match goal with Hl : Nat.eqb _ _ = true |- _ =>
      apply Nat.eqb_eq in Hl; rename Hl into Ht end.
    cbn [ToSql]. unfold jsonOp_ToSql.
    destruct (json_Marshal value) as [text|msg]; [|exact I].
    simpl. now rewrite Ht.
  - (* Custom *)
    cbn [raw_texts_ok] in *.
    match goal with Hl : Nat.eqb _ _ = true |- _ =>
      apply Nat.eqb_eq in Hl; rename Hl into Ht end.
    cbn [ToSql]. unfold Custom_ToSql. destruct err; [exact I | exact Ht].
Qed.

End Parity.

(** ** The specification, claim by claim *)

Section Claims.
Variable json_Marshal : Value -> string + string.

(** C5. [And] and [Or] render their children in order.  When a child
    fails after the children before it have rendered, the combinator
    returns that child's error, whatever children follow.  When all
    children render, those with an empty text are left out with their
    arguments, and the texts that remain are joined with [" AND "]
    (for [Or], [" OR "]) inside one pair of parentheses, their arguments
    concatenated in the order of the children. *)
Theorem conj_renders_children_in_order (c : list Fragment) :
  (forall pre s post e,
      c = pre ++ s :: post ->
      Forall (fun x => exists r, ToSql json_Marshal x = OK r) pre ->
      ToSql json_Marshal s = Err e ->
      ToSql json_Marshal (And c) = Err e
      /\ ToSql json_Marshal (Or c) = Err e)
  /\
  (forall rs,
      Forall2 (fun s r => ToSql json_Marshal s = OK r) c rs ->
      filter nonempty rs <> [] ->
      ToSql json_Marshal (And c) =
        OK ("("
              +++ strings_Join (map fst (filter nonempty rs)) " AND " +++ ")",
            concat (map snd (filter nonempty rs)))
      /\
      ToSql json_Marshal (Or c) =
        OK ("("
              +++ strings_Join (map fst (filter nonempty rs)) " OR " +++ ")",
            concat (map snd (filter nonempty rs)))).
Proof.
  split.
  - intros pre s post e -> Hpre Hs. simpl. unfold conj_join.
    rewrite !(conj_loop_err _ pre post s e Hpre Hs). auto.
  - intros rs Hrs Hkept. simpl.
    rewrite !(conj_join_ok _ _ _ _ Hrs).
    destruct (filter nonempty rs); [contradiction | auto].
Qed.

(** C7. In the expansion of a template, a mark whose position is beyond
    the supplied arguments is written back as it is: once the text before
    it has been expanded, the callback appends the mark to the buffer,
    leaves the arguments as they are and returns no error; the expansion
    succeeds, with the mark and the text after it unchanged and no
    argument appended for them. *)
Theorem expand_mark_beyond_args (e_args : list Value) (pre post buf : string)
        (args : list Value) :
  length e_args <= marks pre ->
  replacePlaceholders (expr_replace (ToSql json_Marshal) e_args) pre []
  = OK (buf, args) ->
  expr_replace (ToSql json_Marshal) e_args buf (S (marks pre)) args
  = OK (buf +++ "?", args)
  /\
  expr_expand (ToSql json_Marshal) (pre +++ String mark post) e_args
  = OK (buf +++ String mark post, args).
Proof.
  intros Hlen Hpre.
  assert (Hcb : expr_replace (ToSql json_Marshal) e_args buf
                             (S (marks pre)) args
                = OK (buf +++ "?", args)).
  { unfold expr_replace.
    destruct (Nat.ltb (length e_args) (S (marks pre))) eqn:E; [reflexivity|].
    apply Nat.ltb_ge in E. lia. }
  split; [exact Hcb|].
  unfold expr_expand, replacePlaceholders in *.
  rewrite replacePlaceholders_from_app, Hpre. simpl.
  rewrite Hcb, expand_from_beyond by lia.
  now rewrite mark_step.
Qed.

(** C9. [JSON(v)] renders a mark followed by [::json], [JSONB(v)] a mark
    followed by [::jsonb], with one bound argument, the JSON text of [v] as
    a string; the render fails exactly when [json.Marshal] fails on [v]. *)
Theorem json_encoder_contract (v : Value) :
  ToSql json_Marshal (JSON v) =
    match json_Marshal v with
    | inl text => OK (String mark "::json", [VString text])
    | inr msg => Err (ErrJSON "json" msg)
    end
  /\
  ToSql json_Marshal (JSONB v) =
    match json_Marshal v with
    | inl text => OK (String mark "::jsonb", [VString text])
    | inr msg => Err (ErrJSON "jsonb" msg)
    end
  /\
  ((exists e, ToSql json_Marshal (JSON v) = Err e)
   <-> (exists msg, json_Marshal v = inr msg))
  /\
  ((exists e, ToSql json_Marshal (JSONB v) = Err e)
   <-> (exists msg, json_Marshal v = inr msg)).
Proof.
  simpl. unfold jsonOp_ToSql.
  destruct (json_Marshal v) as [text|msg]; repeat split;
    try (intros [x Hx]; discriminate); eauto.
Qed.

(** C10. When the list of children of [And] or [Or] is empty, or every
    child renders to the empty text, the combinator returns the empty
    text without parentheses, no argument and no error: the arguments of
    a child with an empty text are dropped. *)
Theorem conj_of_empty_texts (c : list Fragment) :
  (forall s, In s c -> exists a, ToSql json_Marshal s = OK ("", a)) ->
  ToSql json_Marshal (And c) = OK ("", [])
  /\ ToSql json_Marshal (Or c) = OK ("", []).
Proof.
  intros H.
  assert (Hrs : exists rs, Forall2 (fun s r => ToSql json_Marshal s = OK r) c rs
                           /\ filter nonempty rs = []).
  { induction c as [|s c IH].
    - exists []. split; constructor.
    - destruct (H s (or_introl eq_refl)) as [a Ha].
      destruct IH as [rs [H2 Hf]]; [intros x Hx; apply H; now right|].
      exists (("", a) :: rs). split; [now constructor | exact Hf]. }
  destruct Hrs as [rs [H2 Hf]]. simpl.
  rewrite !(conj_join_ok _ _ _ _ H2), Hf. auto.
Qed.

(** C4, as amended.  Each entry of an [Eq] (or [NotEq]) map renders by
    its value, taken after a [driver.Valuer] is unwrapped: nil gives
    ["<key> IS NULL"] (["<key> IS NOT NULL"]) and no argument; an array or
    slice that is not a driver value gives [(1=0)] ([(1=1)]) and no argument
    when it is empty, and ["<key> IN (?,...,?)"] (["<key> NOT IN (...)"]) with
    one mark per element and the elements as arguments, in index order,
    otherwise; any other value, a [[]byte] included, gives ["<key> = ?"]
    (["<key> <> ?"]) with that value as the argument.  The clauses are
    joined with [" AND "] in the order the entries are visited, their
    arguments concatenated in the same order. *)
Theorem Eq_branches_on_value (useNotOpr : bool) :
  (forall key val v,
      unwrap_Valuer val = OK v ->
      Eq_entry useNotOpr key val [] =
      if is_nil v then
        OK (key +++ (if useNotOpr then " IS NOT NULL" else " IS NULL"), [])
      else if isListType v then
        match list_elems v with
        | [] => OK (if useNotOpr then "(1=1)" else "(1=0)", [])
        | elems =>
            OK (key +++ (if useNotOpr then " NOT IN (" else " IN (")
                    +++ Placeholders (length elems) +++ ")",
                elems)
        end
      else OK (key +++ (if useNotOpr then " <> ?" else " = ?"), [v]))
  /\
  (forall n, marks (Placeholders n) = n)
  /\
  (forall m rs,
      Forall2 (fun kv r => Eq_entry useNotOpr (fst kv) (snd kv) [] = OK r)
              m rs ->
      Eq_toSql m useNotOpr =
      OK (strings_Join (map fst rs) " AND ", concat (map snd rs)))
  /\
  (forall m, ToSql json_Marshal (Eq m) = Eq_toSql m false
             /\ ToSql json_Marshal (NotEq m) = Eq_toSql m true).
Proof.
  split; [|split; [|split]].
  - intros key val v Hv. unfold Eq_entry. rewrite Hv.
    destruct (is_nil v).
    { destruct useNotOpr; simpl; now rewrite ?append_assoc. }
    destruct (isListType v).
    2:{ destruct useNotOpr; simpl; now rewrite ?append_assoc. }
    destruct (list_elems v) as [|x l]; [reflexivity|].
    simpl (Nat.eqb _ _). cbv iota.
    destruct useNotOpr; simpl; now rewrite ?append_assoc.
  - exact marks_Placeholders.
  - intros m rs H. unfold Eq_toSql. now rewrite (Eq_loop_ok _ _ _ H).
  - intros m. split; reflexivity.
Qed.

(** C6, as amended.  Each entry of an [Lt], [LtOrEq], [Gt] or [GtOrEq] map
    renders by its value, taken after a [driver.Valuer] is unwrapped: nil,
    or an array or slice that is not a driver value, is an error, and the
    render of a map with such an entry fails; any other value, a [[]byte]
    included, gives ["<key> <op> ?"] with that value as the argument, [<op>]
    being [<], [<=], [>] or [>=] by the variant. *)
Theorem Lt_rejects_null_and_lists (opposite orEq : bool) :
  (forall key val v,
      unwrap_Valuer val = OK v ->
      Lt_entry (Lt_opr opposite orEq) key val [] =
      if is_nil v then Err ErrNull
      else if isListType v then Err ErrList
      else OK (key +++ " " +++ Lt_opr opposite orEq +++ " ?", [v]))
  /\
  (forall m key val v,
      In (key, val) m ->
      unwrap_Valuer val = OK v ->
      is_nil v || isListType v = true ->
      exists e, Lt_toSql m opposite orEq = Err e)
  /\
  (forall m rs,
      Forall2 (fun kv r =>
                 Lt_entry (Lt_opr opposite orEq) (fst kv) (snd kv) [] = OK r)
              m rs ->
      Lt_toSql m opposite orEq =
      OK (strings_Join (map fst rs) " AND ", concat (map snd rs)))
  /\
  (Lt_opr false false = "<" /\ Lt_opr false true = "<=" /\
   Lt_opr true false = ">" /\ Lt_opr true true = ">=")
  /\
  (forall m, ToSql json_Marshal (Lt m) = Lt_toSql m false false
             /\ ToSql json_Marshal (LtOrEq m) = Lt_toSql m false true
             /\ ToSql json_Marshal (Gt m) = Lt_toSql m true false
             /\ ToSql json_Marshal (GtOrEq m) = Lt_toSql m true true).
Proof.
  assert (Hentry : forall key val v,
             unwrap_Valuer val = OK v ->
             Lt_entry (Lt_opr opposite orEq) key val [] =
             if is_nil v then Err ErrNull
             else if isListType v then Err ErrList
             else OK (key +++ " " +++ Lt_opr opposite orEq +++ " ?", [v])).
  { intros key val v Hv. unfold Lt_entry. now rewrite Hv. }
  split; [exact Hentry|]. split; [|split; [|split]].
  - intros m key val v Hin Hv Hbad.
    assert (He : exists e, Lt_entry (Lt_opr opposite orEq) key val [] = Err e).
    { rewrite (Hentry _ _ _ Hv). destruct (is_nil v); [eauto|].
      simpl in Hbad. rewrite Hbad. eauto. }
    destruct He as [e He].
    destruct (Lt_loop_fails _ _ _ _ _ Hin He [] []) as [e' He'].
    exists e'. unfold Lt_toSql. now rewrite He'.
  - intros m rs H. unfold Lt_toSql. now rewrite (Lt_loop_ok _ _ _ H).
  - repeat split.
  - intros m. repeat split.
Qed.

(** C3.  A nested fragment whose text has a percent sign is not spliced
    character for character: the expansion passes the text to
    [fmt.Fprintf] as a format, and the text written differs from the text
    rendered. *)
Theorem expand_splices_through_Fprintf :
  ToSql json_Marshal (Expr "x LIKE 'a%'" []) = OK ("x LIKE 'a%'", [])
  /\
  ToSql json_Marshal (Expr "SELECT * FROM t WHERE ?"
               [VSqlizer (Expr "x LIKE 'a%'" [])])
  = OK ("SELECT * FROM t WHERE x LIKE 'a%!'(MISSING)", []).
Proof. split; reflexivity. Qed.

(** C1, as amended.  When every template without a [Sqlizer] argument
    has one mark per argument, every template with a [Sqlizer] argument has
    no more marks than arguments, the raw texts that come with no argument
    have no mark, and no template expansion splices a text with a percent
    sign, a successful render returns a text with as many marks as it
    returns arguments.  The hypotheses pass to the children and arguments
    of a fragment, so the equality holds at every combinator and at every
    template expansion. *)
Theorem render_keeps_parity (s : Fragment) (sql : string)
        (args : list Value) :
  raw_texts_ok s = true ->
  splices_plain json_Marshal s = true ->
  ToSql json_Marshal s = OK (sql, args) ->
  marks sql = length args.
Proof.
  intros Ht Hp Hr.
  pose proof (proj2 (parity_when_splices_plain json_Marshal) s Ht Hp) as H.
  now rewrite Hr in H.
Qed.

End Claims.

(** ** The examples of the specification *)

Example expand_splices_nested_fragment :
  ToSql sample_Marshal
        (Expr "(?) AS foo" [VSqlizer (Custom "SELECT 1" [] None)])
  = OK ("(SELECT 1) AS foo", []).
Proof. reflexivity. Qed.

Example and_of_predicate_and_template :
  ToSql sample_Marshal
        (And [Eq [("id", VList [VInt 1; VInt 2; VInt 3])];
              Expr "active = ?" [VBool true]])
  = OK ("(id IN (?,?,?) AND active = ?)",
        [VInt 1; VInt 2; VInt 3; VBool true]).
Proof. reflexivity. Qed.

Example null_and_empty_list :
  ToSql sample_Marshal (Eq [("a", VNil); ("b", VList [])])
  = OK ("a IS NULL AND (1=0)", [])
  /\
  ToSql sample_Marshal (NotEq [("a", VNil); ("b", VList [])])
  = OK ("a IS NOT NULL AND (1=1)", [])
  /\
  ToSql sample_Marshal (Lt [("a", VNil)]) = Err ErrNull
  /\
  ToSql sample_Marshal (GtOrEq [("a", VList [VInt 1])]) = Err ErrList.
Proof. repeat split. Qed.

Example function_call_and_concatenation :
  ToSql sample_Marshal (Fn "COALESCE" [Expr "a" []; Expr "?" [VInt 0]])
  = OK ("COALESCE(a, ?)", [VInt 0])
  /\
  ToSql sample_Marshal
        (ConcatExpr [VString "COALESCE(full_name,";
                     VSqlizer (Expr "CONCAT(?, ' ', ?)"
                                    [VString "f"; VString "l"]);
                     VString ")"])
  = OK ("COALESCE(full_name,CONCAT(?, ' ', ?))", [VString "f"; VString "l"])
  /\
  ToSql sample_Marshal (ConcatExpr [VInt 1]) = Err ErrNotStringOrSqlizer.
Proof. repeat split. Qed.

Example json_casts :
  ToSql sample_Marshal (JSON VNil) = OK ("?::json", [VString "null"])
  /\
  ToSql sample_Marshal (JSONB (VBool true)) = OK ("?::jsonb", [VString "true"]).
Proof. repeat split. Qed.

(** C8 as stated fails twice.  With more arguments than marks the fast
    path returns every argument and the expansion only those that meet a
    mark; and for an [expr] built with no argument the fast path returns
    the nil slice of its arguments, the expansion the empty slice it
    made. *)
Lemma fast_path_differs_from_expansion :
  hasSqlizer (slice_elems (slice_of [VInt 1])) = false /\
  expr_ToSql_slice (ToSql sample_Marshal) "a" (slice_of [VInt 1])
  = OK ("a", slice_of [VInt 1]) /\
  expr_expand_slice (ToSql sample_Marshal) "a" (slice_of [VInt 1])
  = OK ("a", slice_of []) /\
  expr_ToSql_slice (ToSql sample_Marshal) "a" (slice_of [VInt 1])
  <> expr_expand_slice (ToSql sample_Marshal) "a" (slice_of [VInt 1]) /\
  hasSqlizer (slice_elems nil_slice) = false /\
  expr_ToSql_slice (ToSql sample_Marshal) "now()" nil_slice
  = OK ("now()", nil_slice) /\
  expr_expand_slice (ToSql sample_Marshal) "now()" nil_slice
  = OK ("now()", slice_of []) /\
  expr_ToSql_slice (ToSql sample_Marshal) "now()" nil_slice
  <> expr_expand_slice (ToSql sample_Marshal) "now()" nil_slice.
Proof. repeat split; discriminate. Qed.

Lemma conj_renders_children_in_order_witness :
  ToSql sample_Marshal (And [Expr "a = ?" [VInt 1]; Expr "" []; Expr "b" []])
  = OK ("(a = ? AND b)", [VInt 1])
  /\
  ToSql sample_Marshal (Or [Expr "a" []; Lt [("k", VNil)]; Expr "b" []])
  = Err ErrNull.
Proof.
  split.
  - apply (proj2 (conj_renders_children_in_order sample_Marshal _)
                 [("a = ?", [VInt 1]); ("", []); ("b", [])]).
    + repeat constructor.
    + discriminate.
  - apply (proj1 (conj_renders_children_in_order sample_Marshal _)
                 [Expr "a" []] (Lt [("k", VNil)]) [Expr "b" []] ErrNull).
    + reflexivity.
    + repeat constructor. eexists; reflexivity.
    + reflexivity.
Defined.

Lemma expand_mark_beyond_args_witness :
  expr_expand (ToSql sample_Marshal) "(?) = ? OR ?"
              [VSqlizer (Custom "SELECT 1" [] None)]
  = OK ("(SELECT 1) = ? OR ?", []).
Proof.
  apply (proj2 (expand_mark_beyond_args sample_Marshal
                  [VSqlizer (Custom "SELECT 1" [] None)]
                  "(?) = " " OR ?" "(SELECT 1) = " []
                  (le_n 1) eq_refl)).
Defined.

Lemma conj_of_empty_texts_witness :
  ToSql sample_Marshal (And [Expr "" [VInt 1]; Or []]) = OK ("", [])
  /\ ToSql sample_Marshal (Or [Expr "" [VInt 1]; Or []]) = OK ("", []).
Proof.
  apply (conj_of_empty_texts sample_Marshal).
  intros s [<- | [<- | []]]; eexists; reflexivity.
Defined.

(** C4 as stated fails on a [[]byte]: it is a slice of two elements (or
    of none), and the code binds it as the one argument of an equality.
    The value that decides is the one a [driver.Valuer] resolves to. *)
Lemma Eq_takes_bytes_as_scalar :
  kind_is_list (VBytes "ab") = true /\
  length (list_elems (VBytes "ab")) = 2 /\
  ToSql sample_Marshal (Eq [("k", VBytes "ab")]) = OK ("k = ?", [VBytes "ab"])
  /\
  ToSql sample_Marshal (NotEq [("k", VBytes "")]) = OK ("k <> ?", [VBytes ""])
  /\
  ToSql sample_Marshal (Eq [("k", VValuer VNil None)]) = OK ("k IS NULL", []).
Proof. repeat split. Qed.

(** C6 as stated fails on a [[]byte]: it is a slice, and the code compares
    with it.  The value that decides is the one a [driver.Valuer] resolves
    to. *)
Lemma Lt_takes_bytes_as_scalar :
  kind_is_list (VBytes "ab") = true /\
  ToSql sample_Marshal (Lt [("k", VBytes "ab")]) = OK ("k < ?", [VBytes "ab"])
  /\
  ToSql sample_Marshal (GtOrEq [("k", VValuer VNil None)]) = Err ErrNull.
Proof. repeat split. Qed.


(** C1 as stated fails on a template with more marks than arguments: the
    nested leaf has no mark and no argument, the second mark of the
    template is beyond the arguments and stays in the text, bound to
    nothing. *)
Lemma expand_leaves_mark_unbound :
  hasSqlizer [] = false /\
  marks "a" = length (@nil Value) /\
  ToSql sample_Marshal (Expr "? ?" [VSqlizer (Expr "a" [])]) = OK ("a ?", [])
  /\
  marks "a ?" <> length (@nil Value).
Proof. repeat split. discriminate. Qed.

Lemma render_keeps_parity_witness :
  marks "(id IN (?,?,?) AND active = ? AND (SELECT ?) AS foo)"
  = length [VInt 1; VInt 2; VInt 3; VBool true; VInt 7].
Proof.
  apply (render_keeps_parity sample_Marshal
           (And [Eq [("id", VList [VInt 1; VInt 2; VInt 3])];
                 Expr "active = ?" [VBool true];
                 Expr "(?) AS foo"
                      [VSqlizer (Custom "SELECT ?" [VInt 7] None)]])).
  - reflexivity.
  - reflexivity.
  - reflexivity.
Defined.

(** Where a template expansion splices a text with a percent sign, marks
    can be lost: the leaf has one mark for its one argument, [fmt] reads
    the bracketed mark as an argument index, and the expansion writes no
    mark for that argument. *)
Lemma expand_loses_mark_after_percent :
  raw_texts_ok (Expr "?" [VSqlizer (Expr "c LIKE '%[?]'" [VString "a"])])
  = true
  /\
  ToSql sample_Marshal (Expr "c LIKE '%[?]'" [VString "a"])
  = OK ("c LIKE '%[?]'", [VString "a"])
  /\
  ToSql sample_Marshal
        (Expr "?" [VSqlizer (Expr "c LIKE '%[?]'" [VString "a"])])
  = OK ("c LIKE '%!'(BADINDEX)", [VString "a"])
  /\
  marks "c LIKE '%!'(BADINDEX)" = 0.
Proof. repeat split. Qed.

Lemma Eq_branches_on_value_witness :
  Eq_entry false "id" (VValuer (VList [VInt 1; VInt 2]) None) []
  = OK ("id IN (?,?)", [VInt 1; VInt 2])
  /\
  Eq_toSql [("id", VList [VInt 1; VInt 2]); ("name", VNil)] true
  = OK ("id NOT IN (?,?) AND name IS NOT NULL", [VInt 1; VInt 2]).
Proof.
  split.
  - exact (proj1 (Eq_branches_on_value sample_Marshal false)
                 "id" (VValuer (VList [VInt 1; VInt 2]) None)
                 (VList [VInt 1; VInt 2]) eq_refl).
  - apply (proj1 (proj2 (proj2 (Eq_branches_on_value sample_Marshal true)))
                 [("id", VList [VInt 1; VInt 2]); ("name", VNil)]
                 [("id NOT IN (?,?)", [VInt 1; VInt 2]);
                  ("name IS NOT NULL", [])]).
    repeat constructor.
Defined.

Lemma Lt_rejects_null_and_lists_witness :
  Lt_entry ">=" "age" (VInt 18) [] = OK ("age >= ?", [VInt 18])
  /\
  (exists e,
      Lt_toSql [("age", VInt 18); ("tags", VList [VInt 1])] false false
      = Err e).
Proof.
  split.
  - exact (proj1 (Lt_rejects_null_and_lists sample_Marshal true true)
                 "age" (VInt 18) (VInt 18) eq_refl).
  - apply (proj1 (proj2 (Lt_rejects_null_and_lists sample_Marshal false false))
                 [("age", VInt 18); ("tags", VList [VInt 1])]
                 "tags" (VList [VInt 1]) (VList [VInt 1])).
    + right. left. reflexivity.
    + reflexivity.
    + reflexivity.
Defined.

(** ** Further properties of template expansion *)

Section ExpansionProperties.
Variable toSql : Fragment -> rendered.

Lemma expr_switch_piece (arg : Value) (buf : string) (args : list Value) :
  expr_switch toSql arg buf args =
  match expr_piece toSql arg with
  | OK (text, vs) => OK (buf +++ text, args ++ vs)
  | Err e => Err e
  end.
Proof.
  destruct arg; simpl; try reflexivity.
  destruct (toSql f) as [[sql vs]|e]; reflexivity.
Qed.

Lemma expand_from_firstn (e_args : list Value) :
  forall sql i buf args,
    replacePlaceholders_from (expr_replace toSql e_args) sql i buf args =
    replacePlaceholders_from
      (expr_replace toSql (firstn (i + marks sql) e_args)) sql i buf args.
Proof.
  induction sql as [|c rest IH]; intros i buf args; [reflexivity|].
  cbn [replacePlaceholders_from marks].
  destruct (Ascii.eqb c mark) eqn:Ec.
  - rewrite !expr_replace_step, nth_error_firstn.
    replace (Nat.ltb i (i + (1 + marks rest))) with true
      by (symmetry; apply Nat.ltb_lt; lia).
    destruct (nth_error e_args i) as [arg|].
    + destruct (expr_switch toSql arg buf args) as [[buf' args']|e];
        [|reflexivity].
      rewrite IH. now replace (S i + marks rest) with (i + (1 + marks rest))
        by lia.
    + rewrite IH. now replace (S i + marks rest) with (i + (1 + marks rest))
        by lia.
  - rewrite IH. reflexivity.
Qed.

Lemma expand_from_spliced (e_args : list Value) :
  forall sql i buf args rs,
    Forall2 (fun arg r => expr_piece toSql arg = OK r)
            (firstn (marks sql) (skipn i e_args)) rs ->
    replacePlaceholders_from (expr_replace toSql e_args) sql i buf args =
    OK (buf +++ splice sql (map fst rs), args ++ concat (map snd rs)).
Proof.
  induction sql as [|c rest IH]; intros i buf args rs H;
    cbn [replacePlaceholders_from marks splice] in *.
  - inversion H; subst. simpl. now rewrite append_nil_r, app_nil_r.
  - destruct (Ascii.eqb c mark) eqn:Ec.
    + apply Ascii.eqb_eq in Ec. subst c.
      rewrite expr_replace_step.
      destruct (nth_error e_args i) as [arg|] eqn:En.
      * rewrite (skipn_nth_error _ _ _ _ En) in H.
        cbn [Nat.add firstn] in H.
        destruct rs as [|[text vs] rs']; [inversion H|].
        apply Forall2_cons_iff in H as [Hp Hrest].
        rewrite expr_switch_piece, Hp.
        rewrite (IH _ _ _ _ Hrest). simpl.
        now rewrite append_assoc, <- app_assoc.
      * apply nth_error_None in En.
        rewrite skipn_all2 in H by lia. rewrite firstn_nil in H.
        inversion H; subst.
        rewrite (IH (S i) _ _ []).
        2:{ rewrite skipn_all2 by lia. rewrite firstn_nil. constructor. }
        simpl. now rewrite mark_step.
    + cbn [Nat.add] in H. rewrite (IH _ _ _ _ H). now rewrite char_step.
Qed.

(** The first argument at a mark whose render fails ends the scan. *)
Lemma expand_from_fails (e_args : list Value) (j : nat) (g : Fragment)
      (e : error) :
  nth_error e_args j = Some (VSqlizer g) ->
  toSql g = Err e ->
  (forall k h, k < j -> nth_error e_args k = Some (VSqlizer h) ->
               exists r, toSql h = OK r) ->
  forall sql i buf args,
    i <= j < i + marks sql ->
    replacePlaceholders_from (expr_replace toSql e_args) sql i buf args
    = Err e.
Proof.
  intros Hj Hg Hbefore.
  induction sql as [|c rest IH]; intros i buf args Hi;
    cbn [replacePlaceholders_from marks] in *; [lia|].
  destruct (Ascii.eqb c mark) eqn:Ec.
  - rewrite expr_replace_step.
    destruct (Nat.eq_dec i j) as [->|Hne].
    + rewrite Hj. simpl. now rewrite Hg.
    + destruct (nth_error e_args i) as [arg|] eqn:En.
      * rewrite expr_switch_piece.
        assert (Hok : exists r, expr_piece toSql arg = OK r).
        { destruct arg; simpl; eauto.
          destruct (Hbefore i f ltac:(lia) En) as [[t vs] Hr].
          rewrite Hr. eauto. }
        destruct Hok as [[t vs] Hok]. rewrite Hok. apply IH. lia.
      * apply nth_error_None in En.
        assert (j < length e_args) by (apply nth_error_Some; congruence).
        lia.
  - apply IH. lia.
Qed.

(** An error of the scan is the error of an argument at a mark, the
    arguments at the marks before it having rendered. *)
Lemma expand_from_error (e_args : list Value) :
  forall sql i buf args e,
    replacePlaceholders_from (expr_replace toSql e_args) sql i buf args
    = Err e ->
    exists j g,
      i <= j < i + marks sql /\
      nth_error e_args j = Some (VSqlizer g) /\
      toSql g = Err e /\
      (forall k h, i <= k < j -> nth_error e_args k = Some (VSqlizer h) ->
                   exists r, toSql h = OK r).
Proof.
  induction sql as [|c rest IH]; intros i buf args e;
    cbn [replacePlaceholders_from marks]; [discriminate|].
  destruct (Ascii.eqb c mark) eqn:Ec.
  - rewrite expr_replace_step.
    destruct (nth_error e_args i) as [arg|] eqn:En.
    + rewrite expr_switch_piece.
      destruct (expr_piece toSql arg) as [[t vs]|e'] eqn:Ep.
      * intros H. destruct (IH _ _ _ _ H) as [j [g [Hj [Hn [Hg Hb]]]]].
        exists j, g. repeat split; try assumption; try lia.
        intros k h Hk Hnk. destruct (Nat.eq_dec k i) as [->|Hne].
        -- rewrite En in Hnk. inversion Hnk; subst. simpl in Ep.
           destruct (toSql h) as [r|]; [eauto|discriminate].
        -- apply (Hb k h); [lia|assumption].
      * intros [= ->]. destruct arg; simpl in Ep; try discriminate.
        exists i, f. split; [lia|]. split; [assumption|]. split.
        -- destruct (toSql f) as [[t vs]|e']; [discriminate|congruence].
        -- intros k h Hk. lia.
    + intros H. destruct (IH _ _ _ _ H) as [j [g [Hj [Hn [Hg Hb]]]]].
      exists j, g. repeat split; try assumption; try lia.
      intros k h Hk Hnk. destruct (Nat.eq_dec k i) as [->|Hne].
      * congruence.
      * apply (Hb k h); [lia|assumption].
  - intros H. destruct (IH _ _ _ _ H) as [j [g [Hj [Hn [Hg Hb]]]]].
    exists j, g. repeat split; try assumption; lia.
Qed.

End ExpansionProperties.

Section ExpansionTheorems.
Variable json_Marshal : Value -> string + string.

(** X1. A template expansion does not look at the arguments past the one
    that meets its last mark: with a [Sqlizer] among the arguments that meet
    the marks, the render is the same whatever arguments follow them, a
    [Sqlizer] whose own render fails included. *)
Theorem expansion_drops_surplus_arguments (sql : string)
        (e_args surplus : list Value) :
  hasSqlizer e_args = true ->
  marks sql <= length e_args ->
  ToSql json_Marshal (Expr sql (e_args ++ surplus))
  = ToSql json_Marshal (Expr sql e_args).
Proof.
  intros Hs Hm. cbn [ToSql]. unfold expr_ToSql.
  assert (Hs' : hasSqlizer (e_args ++ surplus) = true).
  { clear Hm. induction e_args as [|a l IH]; simpl in *; [discriminate|].
    destruct (is_Sqlizer a); [reflexivity | auto]. }
  rewrite Hs, Hs'. simpl. unfold expr_expand, replacePlaceholders.
  rewrite (expand_from_firstn _ (e_args ++ surplus)).
  rewrite (expand_from_firstn _ e_args). simpl.
  rewrite firstn_app.
  replace (marks sql - length e_args) with 0 by lia.
  now rewrite firstn_O, app_nil_r.
Qed.

(** X2. When the arguments that meet the marks of a template render, the
    expansion returns the template with each mark replaced, from the left,
    by what its argument gives (the mark itself for a scalar, the text
    written by [fmt.Fprintf] for a [Sqlizer]), marks past the arguments left
    as they are, and the arguments flattened in the same order (the scalar
    itself, the bound arguments of a [Sqlizer]). *)
Theorem expansion_splices_in_order (sql : string) (e_args : list Value)
        (rs : list (string * list Value)) :
  Forall2 (fun arg r => expr_piece (ToSql json_Marshal) arg = OK r)
          (firstn (marks sql) e_args) rs ->
  expr_expand (ToSql json_Marshal) sql e_args
  = OK (splice sql (map fst rs), concat (map snd rs)).
Proof.
  intros H. unfold expr_expand, replacePlaceholders.
  now rewrite (expand_from_spliced _ e_args sql 0 "" [] rs H).
Qed.

(** X3. A template expansion fails exactly with the error of the first
    [Sqlizer] argument, among those that meet a mark, whose render fails:
    it has no error of its own. *)
Theorem expansion_fails_with_first_failing_argument (sql : string)
        (e_args : list Value) (e : error) :
  expr_expand (ToSql json_Marshal) sql e_args = Err e
  <->
  exists j g,
    j < marks sql /\
    nth_error e_args j = Some (VSqlizer g) /\
    ToSql json_Marshal g = Err e /\
    (forall k h, k < j -> nth_error e_args k = Some (VSqlizer h) ->
                 exists r, ToSql json_Marshal h = OK r).
Proof.
  unfold expr_expand, replacePlaceholders. split.
  - intros H. destruct (expand_from_error _ _ _ _ _ _ _ H)
      as [j [g [Hj [Hn [Hg Hb]]]]].
    exists j, g. repeat split; try assumption; try lia.
    intros k h Hk. apply Hb. lia.
  - intros [j [g [Hj [Hn [Hg Hb]]]]].
    apply (expand_from_fails _ e_args j g e Hn Hg Hb). lia.
Qed.

End ExpansionTheorems.

Lemma expansion_drops_surplus_arguments_witness :
  ToSql sample_Marshal
        (Expr "EXISTS (?)" ([VSqlizer (Custom "SELECT 1" [] None)]
                            ++ [VInt 7; VSqlizer (Lt [("k", VNil)])]))
  = ToSql sample_Marshal
          (Expr "EXISTS (?)" [VSqlizer (Custom "SELECT 1" [] None)]).
Proof.
  apply (expansion_drops_surplus_arguments sample_Marshal);
    [reflexivity | simpl; lia].
Defined.

Lemma expansion_splices_in_order_witness :
  expr_expand (ToSql sample_Marshal) "a = ? AND b IN (?) AND c = ?"
              [VInt 1; VSqlizer (Expr "SELECT x FROM t WHERE y = ?" [VInt 2])]
  = OK ("a = ? AND b IN (SELECT x FROM t WHERE y = ?) AND c = ?",
        [VInt 1; VInt 2]).
Proof.
  apply (expansion_splices_in_order sample_Marshal
           "a = ? AND b IN (?) AND c = ?"
           [VInt 1; VSqlizer (Expr "SELECT x FROM t WHERE y = ?" [VInt 2])]
           [("?", [VInt 1]); ("SELECT x FROM t WHERE y = ?", [VInt 2])]).
  repeat constructor.
Defined.

(** ** Further properties of the combinators *)

(** The elements of a list all give a result, or a first one gives an
    error. *)
Lemma all_or_first_error (A B : Type) (f : A -> result B) (l : list A) :
  (exists rs, Forall2 (fun a r => f a = OK r) l rs)
  \/
  (exists pre a post rs e,
      l = pre ++ a :: post /\
      Forall2 (fun a r => f a = OK r) pre rs /\
      f a = Err e).
Proof.
  induction l as [|a l IH].
  - left. exists []. constructor.
  - destruct (f a) as [r|e] eqn:Ea.
    + destruct IH as [[rs Hrs] | [pre [b [post [rs [e [-> [Hpre Hb]]]]]]]].
      * left. exists (r :: rs). now constructor.
      * right. exists (a :: pre), b, post, (r :: rs), e.
        repeat split; [now constructor | assumption].
    + right. exists [], a, l, [], e. repeat split; [constructor | assumption].
Qed.

Lemma concat_nosep_cons (x : string) (l : list string) :
  String.concat "" (x :: l) = x +++ String.concat "" l.
Proof. destruct l; simpl; [now rewrite append_nil_r | reflexivity]. Qed.

Lemma Forall2_ok_unique (A B : Type) (f : A -> result B) (l : list A) :
  forall rs rs',
    Forall2 (fun a r => f a = OK r) l rs ->
    Forall2 (fun a r => f a = OK r) l rs' -> rs = rs'.
Proof.
  induction l as [|a l IH]; intros rs rs' H H'; inversion H; inversion H';
    subst; [reflexivity|].
  f_equal; [congruence | now apply IH].
Qed.

Section CombinatorProperties.
Variable toSql : Fragment -> rendered.

Lemma concatExpr_loop_step (part : Value) (rest : list Value)
      (sql : string) (args : list Value) :
  concatExpr_loop toSql (part :: rest) sql args =
  match concatExpr_part toSql part with
  | OK (text, vs) => concatExpr_loop toSql rest (sql +++ text) (args ++ vs)
  | Err e => Err e
  end.
Proof.
  destruct part; simpl; try reflexivity.
  now rewrite app_nil_r.
Qed.

Lemma concatExpr_loop_ok (ce : list Value)
      (rs : list (string * list Value)) :
  Forall2 (fun part r => concatExpr_part toSql part = OK r) ce rs ->
  forall sql args,
    concatExpr_loop toSql ce sql args =
    OK (sql +++ String.concat "" (map fst rs),
        args ++ concat (map snd rs)).
Proof.
  induction 1 as [|part [text vs] ce rs Hp _ IH]; intros sql args.
  - simpl. now rewrite append_nil_r, app_nil_r.
  - rewrite concatExpr_loop_step, Hp, IH.
    cbn [map fst snd concat]. rewrite concat_nosep_cons.
    now rewrite append_assoc, <- app_assoc.
Qed.

Lemma concatExpr_loop_err (pre post : list Value) (part : Value)
      (rs : list (string * list Value)) (e : error) :
  Forall2 (fun part r => concatExpr_part toSql part = OK r) pre rs ->
  concatExpr_part toSql part = Err e ->
  forall sql args,
    concatExpr_loop toSql (pre ++ part :: post) sql args = Err e.
Proof.
  intros Hpre Hp.
  induction Hpre as [|p [text vs] pre rs Hq _ IH]; intros sql args.
  - simpl app. now rewrite concatExpr_loop_step, Hp.
  - simpl app. rewrite concatExpr_loop_step, Hq. apply IH.
Qed.

Lemma concatExpr_loop_app (a b : list Value) :
  forall sql args,
    concatExpr_loop toSql (a ++ b) sql args =
    match concatExpr_loop toSql a sql args with
    | OK (sql', args') => concatExpr_loop toSql b sql' args'
    | Err e => Err e
    end.
Proof.
  induction a as [|part a IH]; intros sql args; [reflexivity|].
  simpl app. rewrite !concatExpr_loop_step.
  destruct (concatExpr_part toSql part) as [[t vs]|e]; [apply IH|reflexivity].
Qed.

(** The loop started on a text and arguments, from the loop started on
    nothing. *)
Lemma concatExpr_loop_shift (ce : list Value) (sql : string)
      (args : list Value) :
  concatExpr_loop toSql ce sql args =
  match concatExpr_loop toSql ce "" [] with
  | OK (text, vs) => OK (sql +++ text, args ++ vs)
  | Err e => Err e
  end.
Proof.
  destruct (all_or_first_error _ _ (concatExpr_part toSql) ce)
    as [[rs Hrs] | [pre [part [post [rs [e [-> [Hpre Hp]]]]]]]].
  - now rewrite !(concatExpr_loop_ok _ _ Hrs).
  - now rewrite !(concatExpr_loop_err _ _ _ _ _ Hpre Hp).
Qed.

Lemma fn_loop_later (fargs : list Fragment)
      (rs : list (string * list Value)) :
  Forall2 (fun s r => toSql s = OK r) fargs rs ->
  forall a sql args,
    0 < a ->
    fn_loop toSql fargs a sql args =
    OK (sql +++ String.concat "" (map (fun r => ", " +++ fst r) rs),
        args ++ concat (map snd rs)).
Proof.
  induction 1 as [|s [text vs] fargs rs Hs _ IH]; intros a sql args Ha.
  - simpl. now rewrite append_nil_r, app_nil_r.
  - cbn [fn_loop]. rewrite Hs.
    replace (Nat.ltb 0 a) with true by (symmetry; apply Nat.ltb_lt; lia).
    rewrite IH by lia. cbn [map fst snd concat].
    rewrite concat_nosep_cons. now rewrite !append_assoc, <- app_assoc.
Qed.

Lemma Join_comma (text : string) (texts : list string) :
  strings_Join (text :: texts) ", " =
  text +++ String.concat "" (map (fun t => ", " +++ t) texts).
Proof.
  unfold strings_Join. revert text.
  induction texts as [|t texts IH]; intros text.
  - simpl. now rewrite append_nil_r.
  - change (String.concat ", " (text :: t :: texts))
      with (text +++ ", " +++ String.concat ", " (t :: texts)).
    rewrite IH. cbn [map]. rewrite concat_nosep_cons.
    now rewrite !append_assoc.
Qed.

Lemma fn_ToSql_ok (name : string) (fargs : list Fragment)
      (rs : list (string * list Value)) :
  Forall2 (fun s r => toSql s = OK r) fargs rs ->
  fn_ToSql toSql name fargs =
  OK (name +++ "(" +++ strings_Join (map fst rs) ", " +++ ")",
      concat (map snd rs)).
Proof.
  intros H. unfold fn_ToSql.
  destruct H as [|s [text vs] fargs rs Hs Hrest].
  - cbn [fn_loop map]. unfold strings_Join. cbn [String.concat].
    now rewrite append_assoc.
  - cbn [fn_loop]. rewrite Hs.
    change (Nat.ltb 0 0) with false. cbv iota.
    rewrite (fn_loop_later _ _ Hrest) by lia.
    cbn [map fst snd concat app]. rewrite Join_comma, map_map.
    now rewrite !append_assoc.
Qed.

Lemma fn_loop_err (pre post : list Fragment) (s : Fragment)
      (rs : list (string * list Value)) (e : error) :
  Forall2 (fun s r => toSql s = OK r) pre rs ->
  toSql s = Err e ->
  forall a sql args, fn_loop toSql (pre ++ s :: post) a sql args = Err e.
Proof.
  intros Hpre Hs.
  induction Hpre as [|x [text vs] pre rs Hx _ IH]; intros a sql args;
    simpl app; cbn [fn_loop].
  - now rewrite Hs.
  - rewrite Hx. apply IH.
Qed.

End CombinatorProperties.

Lemma Forall2_ok_Forall (A B : Type) (f : A -> result B) (l : list A)
      (rs : list B) :
  Forall2 (fun a r => f a = OK r) l rs ->
  Forall (fun a => exists r, f a = OK r) l.
Proof. induction 1; constructor; eauto. Qed.

Section CombinatorTheorems.
Variable json_Marshal : Value -> string + string.

(** X4. When every part of a concatenation is a string or a [Sqlizer]
    that renders, the concatenation renders the texts of its parts one
    after the other with nothing between them (a string as it is, with no
    argument; a [Sqlizer] by its text) and binds their arguments in the
    order of the parts. *)
Theorem concatExpr_joins_parts (parts : list Value)
        (rs : list (string * list Value)) :
  Forall2 (fun part r => concatExpr_part (ToSql json_Marshal) part = OK r)
          parts rs ->
  ToSql json_Marshal (ConcatExpr parts)
  = OK (String.concat "" (map fst rs), concat (map snd rs)).
Proof.
  intros H. cbn [ToSql]. unfold concatExpr_ToSql.
  now rewrite (concatExpr_loop_ok _ _ _ H).
Qed.

(** X5. A concatenation fails exactly with the error of its first part
    that is not a string and either is no [Sqlizer] or is a [Sqlizer] whose
    render fails; the parts after it are not looked at. *)
Theorem concatExpr_fails_with_first_bad_part (parts : list Value)
        (e : error) :
  ToSql json_Marshal (ConcatExpr parts) = Err e
  <->
  exists pre part post rs,
    parts = pre ++ part :: post /\
    Forall2 (fun p r => concatExpr_part (ToSql json_Marshal) p = OK r)
            pre rs /\
    concatExpr_part (ToSql json_Marshal) part = Err e.
Proof.
  cbn [ToSql]. unfold concatExpr_ToSql. split.
  - intros H.
    destruct (all_or_first_error _ _
                (concatExpr_part (ToSql json_Marshal)) parts)
      as [[rs Hrs] | [pre [part [post [rs [e' [-> [Hpre Hp]]]]]]]].
    + rewrite (concatExpr_loop_ok _ _ _ Hrs) in H. discriminate.
    + rewrite (concatExpr_loop_err _ _ _ _ _ _ Hpre Hp) in H.
      inversion H; subst. eauto 8.
  - intros [pre [part [post [rs [-> [Hpre Hp]]]]]].
    apply (concatExpr_loop_err _ _ _ _ _ _ Hpre Hp).
Qed.

(** X6. A concatenation nested in a concatenation renders as if its parts
    were written in place: the same text, the same arguments, the same
    error. *)
Theorem concatExpr_nested_is_inlined (a b c : list Value) :
  ToSql json_Marshal (ConcatExpr (a ++ VSqlizer (ConcatExpr b) :: c))
  = ToSql json_Marshal (ConcatExpr (a ++ b ++ c)).
Proof.
  cbn [ToSql]. unfold concatExpr_ToSql.
  rewrite !concatExpr_loop_app.
  destruct (concatExpr_loop (ToSql json_Marshal) a "" [])
    as [[sql args]|e]; [|reflexivity].
  rewrite concatExpr_loop_step, concatExpr_loop_app.
  cbn [concatExpr_part ToSql]. unfold concatExpr_ToSql.
  rewrite (concatExpr_loop_shift _ b sql args).
  destruct (concatExpr_loop (ToSql json_Marshal) b "" [])
    as [[text vs]|e]; reflexivity.
Qed.

(** X7. When its arguments render, a function call renders its name, an
    opening parenthesis, the texts of the arguments separated by a comma
    and a space, and a closing parenthesis, and binds their arguments in
    order.  An argument with an empty text keeps its place and its
    separator. *)
Theorem fn_renders_call (name : string) (fargs : list Fragment)
        (rs : list (string * list Value)) :
  Forall2 (fun s r => ToSql json_Marshal s = OK r) fargs rs ->
  ToSql json_Marshal (Fn name fargs)
  = OK (name +++ "(" +++ strings_Join (map fst rs) ", " +++ ")",
        concat (map snd rs)).
Proof. intros H. cbn [ToSql]. now apply fn_ToSql_ok. Qed.

(** X8. A function call fails exactly with the error of its first
    argument whose render fails. *)
Theorem fn_fails_with_first_failing_argument (name : string)
        (fargs : list Fragment) (e : error) :
  ToSql json_Marshal (Fn name fargs) = Err e
  <->
  exists pre s post rs,
    fargs = pre ++ s :: post /\
    Forall2 (fun x r => ToSql json_Marshal x = OK r) pre rs /\
    ToSql json_Marshal s = Err e.
Proof.
  cbn [ToSql]. split.
  - intros H.
    destruct (all_or_first_error _ _ (ToSql json_Marshal) fargs)
      as [[rs Hrs] | [pre [s [post [rs [e' [-> [Hpre Hs]]]]]]]].
    + rewrite (fn_ToSql_ok _ _ _ _ Hrs) in H. discriminate.
    + unfold fn_ToSql in H.
      rewrite (fn_loop_err _ _ _ _ _ _ Hpre Hs) in H.
      inversion H; subst. eauto 8.
  - intros [pre [s [post [rs [-> [Hpre Hs]]]]]].
    unfold fn_ToSql. now rewrite (fn_loop_err _ _ _ _ _ _ Hpre Hs).
Qed.

(** X9. [And] and [Or] have no error of their own: [And] fails with an
    error exactly when that error is the error of its first child whose
    render fails, and so does [Or]. *)
Theorem conj_fails_with_first_failing_child (c : list Fragment)
        (e : error) :
  (ToSql json_Marshal (And c) = Err e
   <->
   exists pre s post,
     c = pre ++ s :: post /\
     Forall (fun x => exists r, ToSql json_Marshal x = OK r) pre /\
     ToSql json_Marshal s = Err e)
  /\
  (ToSql json_Marshal (Or c) = Err e
   <->
   exists pre s post,
     c = pre ++ s :: post /\
     Forall (fun x => exists r, ToSql json_Marshal x = OK r) pre /\
     ToSql json_Marshal s = Err e).
Proof.
  assert (Hgen : forall sep,
             conj_join (ToSql json_Marshal) c sep = Err e
             <->
             exists pre s post,
               c = pre ++ s :: post /\
               Forall (fun x => exists r, ToSql json_Marshal x = OK r) pre /\
               ToSql json_Marshal s = Err e).
  { intros sep. split.
    - intros H.
      destruct (all_or_first_error _ _ (ToSql json_Marshal) c)
        as [[rs Hrs] | [pre [s [post [rs [e' [-> [Hpre Hs]]]]]]]].
      + rewrite (conj_join_ok _ _ _ _ Hrs) in H.
        destruct (filter nonempty rs); discriminate.
      + apply Forall2_ok_Forall in Hpre. unfold conj_join in H.
        rewrite (conj_loop_err _ _ _ _ _ Hpre Hs) in H.
        assert (e' = e) by now inversion H.
        subst. eauto 8.
    - intros [pre [s [post [-> [Hpre Hs]]]]].
      unfold conj_join. now rewrite (conj_loop_err _ _ _ _ _ Hpre Hs). }
  split; cbn [ToSql]; apply Hgen.
Qed.

End CombinatorTheorems.

Lemma concatExpr_joins_parts_witness :
  ToSql sample_Marshal
        (ConcatExpr [VString "COALESCE(name, ";
                     VSqlizer (Expr "CONCAT(?, ?)" [VInt 1; VInt 2]);
                     VString ")"])
  = OK ("COALESCE(name, CONCAT(?, ?))", [VInt 1; VInt 2]).
Proof.
  apply (concatExpr_joins_parts sample_Marshal _
           [("COALESCE(name, ", []); ("CONCAT(?, ?)", [VInt 1; VInt 2]);
            (")", [])]).
  repeat constructor.
Defined.

Lemma fn_renders_call_witness :
  ToSql sample_Marshal
        (Fn "COALESCE" [Expr "" []; Expr "a" []; Expr "?" [VInt 0]])
  = OK ("COALESCE(, a, ?)", [VInt 0]).
Proof.
  apply (fn_renders_call sample_Marshal "COALESCE" _
           [("", []); ("a", []); ("?", [VInt 0])]).
  repeat constructor.
Defined.

(** ** Further properties of the predicate builders *)

(** An entry of an [Eq] map fails only through its [driver.Valuer]. *)
Lemma Eq_entry_error (useNotOpr : bool) (key : string) (val : Value)
      (e : error) :
  Eq_entry useNotOpr key val [] = Err e <-> unwrap_Valuer val = Err e.
Proof.
  unfold Eq_entry. destruct (unwrap_Valuer val) as [v|e'].
  - destruct (is_nil v); [split; discriminate|].
    destruct (isListType v); [|split; discriminate].
    destruct (Nat.eqb (length (list_elems v)) 0); split; discriminate.
  - split; intros H; inversion H; reflexivity.
Qed.

Lemma Eq_entry_ok (useNotOpr : bool) (key : string) (val : Value) :
  (exists r, Eq_entry useNotOpr key val [] = OK r)
  <-> (exists v, unwrap_Valuer val = OK v).
Proof.
  split.
  - intros [r Hr]. destruct (unwrap_Valuer val) as [v|e] eqn:E; [eauto|].
    apply (Eq_entry_error useNotOpr key) in E. congruence.
  - intros [v Hv].
    destruct (Eq_entry useNotOpr key val []) as [r|e] eqn:E; [eauto|].
    apply Eq_entry_error in E. congruence.
Qed.

Lemma Eq_loop_err (useNotOpr : bool) (pre post : list (string * Value))
      (kv : string * Value) (rs : list (string * list Value)) (e : error) :
  Forall2 (fun kv r => Eq_entry useNotOpr (fst kv) (snd kv) [] = OK r)
          pre rs ->
  Eq_entry useNotOpr (fst kv) (snd kv) [] = Err e ->
  forall exprs args,
    Eq_loop useNotOpr (pre ++ kv :: post) exprs args = Err e.
Proof.
  intros Hpre Hkv.
  induction Hpre as [|[k v] [expr vs] pre rs Hx _ IH]; intros exprs args;
    simpl app; cbn [Eq_loop].
  - destruct kv as [k v]. rewrite Eq_entry_args. simpl in Hkv.
    now rewrite Hkv.
  - rewrite Eq_entry_args. simpl in Hx. rewrite Hx. apply IH.
Qed.

Lemma Lt_loop_err (opr : string) (pre post : list (string * Value))
      (kv : string * Value) (rs : list (string * list Value)) (e : error) :
  Forall2 (fun kv r => Lt_entry opr (fst kv) (snd kv) [] = OK r) pre rs ->
  Lt_entry opr (fst kv) (snd kv) [] = Err e ->
  forall exprs args,
    Lt_loop opr (pre ++ kv :: post) exprs args = Err e.
Proof.
  intros Hpre Hkv.
  induction Hpre as [|[k v] [expr vs] pre rs Hx _ IH]; intros exprs args;
    simpl app; cbn [Lt_loop].
  - destruct kv as [k v]. rewrite Lt_entry_args. simpl in Hkv.
    now rewrite Hkv.
  - rewrite Lt_entry_args. simpl in Hx. rewrite Hx. apply IH.
Qed.

(** The clause of an entry is never the empty text. *)
Lemma Eq_entry_nonempty (useNotOpr : bool) (key : string) (val : Value)
      (r : string * list Value) :
  Eq_entry useNotOpr key val [] = OK r -> nonempty r = true.
Proof.
  assert (Hkey : forall t, String.eqb (key +++ String " " t) "" = false).
  { intros t. destruct key; reflexivity. }
  unfold Eq_entry. destruct (unwrap_Valuer val) as [v|e]; [|discriminate].
  destruct (is_nil v).
  { intros [= <-]. unfold nonempty. cbn [fst]. simpl append.
    now rewrite Hkey. }
  destruct (isListType v).
  - destruct (Nat.eqb (length (list_elems v)) 0).
    + intros [= <-]. now destruct useNotOpr.
    + intros [= <-]. unfold nonempty. cbn [fst]. simpl append.
      now rewrite Hkey.
  - intros [= <-]. unfold nonempty. cbn [fst]. simpl append.
    now rewrite Hkey.
Qed.

(** What an entry binds, and the error of an entry, are the same with
    and without negation. *)
Lemma Eq_entry_negation (key : string) (val : Value) :
  match Eq_entry false key val [], Eq_entry true key val [] with
  | OK (_, vs), OK (_, vs') => vs = vs'
  | Err e, Err e' => e = e'
  | _, _ => False
  end.
Proof.
  unfold Eq_entry. destruct (unwrap_Valuer val) as [v|e]; [|reflexivity].
  destruct (is_nil v); [reflexivity|].
  destruct (isListType v); [|reflexivity].
  destruct (Nat.eqb (length (list_elems v)) 0); reflexivity.
Qed.

Lemma Eq_loop_negation (m : list (string * Value)) :
  forall exprs exprs' args,
    match Eq_loop false m exprs args, Eq_loop true m exprs' args with
    | OK (es, vs), OK (es', vs') =>
        vs = vs' /\ length es = length exprs + length m
        /\ length es' = length exprs' + length m
    | Err e, Err e' => e = e'
    | _, _ => False
    end.
Proof.
  induction m as [|[key val] m IH]; intros exprs exprs' args; cbn [Eq_loop].
  - simpl. repeat split; lia.
  - rewrite !(Eq_entry_args _ key val args).
    pose proof (Eq_entry_negation key val) as H.
    destruct (Eq_entry false key val []) as [[e1 v1]|e1],
             (Eq_entry true key val []) as [[e2 v2]|e2];
      try contradiction; [|assumption].
    subst v2. specialize (IH (exprs ++ [e1]) (exprs' ++ [e2]) (args ++ v1)).
    destruct (Eq_loop false m (exprs ++ [e1]) (args ++ v1)) as [[es vs]|e],
             (Eq_loop true m (exprs' ++ [e2]) (args ++ v1)) as [[es' vs']|e'];
      try assumption.
    rewrite !length_app in IH. simpl in *. repeat split; try apply IH; lia.
Qed.

(** What an entry of an ordering map binds, and its error, do not depend
    on the operator. *)
Lemma Lt_loop_operator (opr opr' : string) (m : list (string * Value)) :
  forall exprs exprs' args,
    match Lt_loop opr m exprs args, Lt_loop opr' m exprs' args with
    | OK (_, vs), OK (_, vs') => vs = vs'
    | Err e, Err e' => e = e'
    | _, _ => False
    end.
Proof.
  induction m as [|[key val] m IH]; intros exprs exprs' args; cbn [Lt_loop].
  - reflexivity.
  - unfold Lt_entry. destruct (unwrap_Valuer val) as [v|e]; [|reflexivity].
    destruct (is_nil v); [reflexivity|].
    destruct (isListType v); [reflexivity|]. apply IH.
Qed.

(** What the loop of [Lt.toSql] binds when it ends without error. *)
Lemma Lt_loop_binds (opr : string) (m : list (string * Value)) :
  forall exprs args exprs' args',
    Lt_loop opr m exprs args = OK (exprs', args') ->
    exists vs,
      args' = args ++ vs /\
      Forall2 (fun kv v => unwrap_Valuer (snd kv) = OK v
                           /\ is_nil v = false /\ isListType v = false)
              m vs.
Proof.
  induction m as [|[key val] m IH]; intros exprs args exprs' args';
    cbn [Lt_loop].
  - intros [= <- <-]. exists []. split; [now rewrite app_nil_r|constructor].
  - unfold Lt_entry. destruct (unwrap_Valuer val) as [v|e] eqn:Ev;
      [|discriminate].
    destruct (is_nil v) eqn:En; [discriminate|].
    destruct (isListType v) eqn:El; [discriminate|].
    intros H. destruct (IH _ _ _ _ H) as [vs [-> Hvs]].
    exists (v :: vs). split; [now rewrite <- app_assoc|].
    constructor; [now repeat split | assumption].
Qed.

Lemma Lt_loop_renders (opr : string) (m : list (string * Value))
      (vs : list Value) :
  Forall2 (fun kv v => unwrap_Valuer (snd kv) = OK v
                       /\ is_nil v = false /\ isListType v = false) m vs ->
  forall exprs args,
    exists exprs', Lt_loop opr m exprs args = OK (exprs', args ++ vs).
Proof.
  induction 1 as [|[key val] v m vs [Hv [Hn Hl]] _ IH]; intros exprs args;
    cbn [Lt_loop].
  - exists exprs. now rewrite app_nil_r.
  - unfold Lt_entry. simpl in Hv. rewrite Hv, Hn, Hl.
    destruct (IH (exprs ++ [key +++ " " +++ opr +++ " ?"]) (args ++ [v]))
      as [exprs' H].
    exists exprs'. rewrite H. now rewrite <- app_assoc.
Qed.

Lemma Eq_loop_fails (useNotOpr : bool) (m : list (string * Value))
      (kv : string * Value) (e : error) :
  In kv m ->
  Eq_entry useNotOpr (fst kv) (snd kv) [] = Err e ->
  forall exprs args, exists e', Eq_loop useNotOpr m exprs args = Err e'.
Proof.
  intros Hin He. induction m as [|[k v] m IH]; [contradiction|].
  intros exprs args. cbn [Eq_loop]. rewrite Eq_entry_args.
  destruct (Eq_entry useNotOpr k v []) as [[expr vs]|e0] eqn:E; [|eauto].
  destruct Hin as [<-|Hin]; [|now apply IH].
  simpl in He. congruence.
Qed.

(** *** Two visits of one map *)

Lemma concat_permuted (A B : Type) (f : A -> list B) (l l' : list A) :
  Permutation l l' -> Permutation (concat (map f l)) (concat (map f l')).
Proof.
  intros H. rewrite <- !flat_map_concat_map. now apply Permutation_flat_map.
Qed.

Lemma Permutation_nil_iff (A : Type) (l l' : list A) :
  Permutation l l' -> (l = [] <-> l' = []).
Proof.
  intros H. split; intros ->.
  - now apply Permutation_nil.
  - now apply Permutation_nil, Permutation_sym.
Qed.

(** A join of texts none of which is empty is empty for no text only. *)
Lemma Join_empty (elems : list string) (sep : string) :
  Forall (fun t => t <> "") elems ->
  (strings_Join elems sep = "" <-> elems = []).
Proof.
  unfold strings_Join. intros H. split.
  - destruct H as [|x [|y l] Hx _]; [reflexivity| |]; simpl.
    + intros ->. contradiction.
    + intros E. apply append_eq_nil in E as [-> _]. contradiction.
  - intros ->. reflexivity.
Qed.

Lemma Lt_entry_nonempty (opr key : string) (val : Value)
      (r : string * list Value) :
  Lt_entry opr key val [] = OK r -> fst r <> "".
Proof.
  unfold Lt_entry. destruct (unwrap_Valuer val) as [v|e]; [|discriminate].
  destruct (is_nil v); [discriminate|].
  destruct (isListType v); [discriminate|].
  intros [= <-]. cbn [fst]. destruct key; discriminate.
Qed.

(** Two renders of an [Eq] map that visit its entries in two orders. *)
Lemma Eq_toSql_permuted (m m' : list (string * Value)) (useNotOpr : bool) :
  Permutation m m' ->
  renders_alike (Eq_toSql m useNotOpr) (Eq_toSql m' useNotOpr).
Proof.
  intros Hp. unfold Eq_toSql, renders_alike.
  destruct (all_or_first_error _ _
              (fun kv => Eq_entry useNotOpr (fst kv) (snd kv) []) m)
    as [[rs Hrs] | [pre [kv [post [rs [e [-> [Hpre Hkv]]]]]]]].
  - destruct (Permutation_Forall2 Hp Hrs) as [rs' [Hprs Hrs']].
    rewrite (Eq_loop_ok _ _ _ Hrs), (Eq_loop_ok _ _ _ Hrs'). simpl.
    split; [now apply concat_permuted|].
    assert (Hne : forall n rs0,
               Forall2 (fun kv r => Eq_entry useNotOpr (fst kv) (snd kv) []
                                    = OK r) n rs0 ->
               Forall (fun t => t <> "") (map fst rs0)).
    { intros n rs0 H. induction H as [|[k v] r n rs0 Hr _ IH]; simpl;
        constructor; [|assumption].
      apply Eq_entry_nonempty in Hr. unfold nonempty in Hr.
      intros E. rewrite E in Hr. discriminate. }
    rewrite (Join_empty _ _ (Hne _ _ Hrs)), (Join_empty _ _ (Hne _ _ Hrs')).
    apply Permutation_nil_iff. now apply Permutation_map.
  - rewrite (Eq_loop_err _ _ _ _ _ _ Hpre Hkv).
    assert (Hin : In kv m').
    { eapply Permutation_in; [exact Hp|]. apply in_elt. }
    destruct (Eq_loop_fails _ _ _ _ Hin Hkv [] []) as [e' He'].
    now rewrite He'.
Qed.

(** Two renders of an ordering map that visit its entries in two orders. *)
Lemma Lt_toSql_permuted (m m' : list (string * Value))
      (opposite orEq : bool) :
  Permutation m m' ->
  renders_alike (Lt_toSql m opposite orEq) (Lt_toSql m' opposite orEq).
Proof.
  intros Hp. unfold Lt_toSql, renders_alike.
  set (opr := Lt_opr opposite orEq).
  destruct (all_or_first_error _ _
              (fun kv => Lt_entry opr (fst kv) (snd kv) []) m)
    as [[rs Hrs] | [pre [kv [post [rs [e [-> [Hpre Hkv]]]]]]]].
  - destruct (Permutation_Forall2 Hp Hrs) as [rs' [Hprs Hrs']].
    rewrite (Lt_loop_ok _ _ _ Hrs), (Lt_loop_ok _ _ _ Hrs'). simpl.
    split; [now apply concat_permuted|].
    assert (Hne : forall n rs0,
               Forall2 (fun kv r => Lt_entry opr (fst kv) (snd kv) [] = OK r)
                       n rs0 ->
               Forall (fun t => t <> "") (map fst rs0)).
    { intros n rs0 H. induction H as [|[k v] r n rs0 Hr _ IH]; simpl;
        constructor; [|assumption].
      now apply Lt_entry_nonempty in Hr. }
    rewrite (Join_empty _ _ (Hne _ _ Hrs)), (Join_empty _ _ (Hne _ _ Hrs')).
    apply Permutation_nil_iff. now apply Permutation_map.
  - rewrite (Lt_loop_err _ _ _ _ _ _ Hpre Hkv).
    assert (Hin : In (fst kv, snd kv) m').
    { destruct kv. eapply Permutation_in; [exact Hp|]. apply in_elt. }
    destruct (Lt_loop_fails _ _ _ _ _ Hin Hkv [] []) as [e' He'].
    now rewrite He'.
Qed.

(** An [Eq] over a map that is not empty and the [And] of the [Eq]s of
    its entries, on the elements of what they bind. *)
Lemma conj_join_of_entries (toSql : Fragment -> rendered)
      (useNotOpr : bool) (single : string * Value -> Fragment)
      (m : list (string * Value)) :
  (forall kv, toSql (single kv) = Eq_toSql [kv] useNotOpr) ->
  m <> [] ->
  conj_join toSql (map single m) " AND "
  = parenthesized (Eq_toSql m useNotOpr).
Proof.
  intros Hsingle Hm.
  assert (Hone : forall kv,
             toSql (single kv) = Eq_entry useNotOpr (fst kv) (snd kv) []).
  { intros [k v]. rewrite Hsingle. unfold Eq_toSql. cbn [Eq_loop fst snd].
    destruct (Eq_entry useNotOpr k v []) as [[expr vs]|e]; reflexivity. }
  destruct (all_or_first_error _ _
              (fun kv => Eq_entry useNotOpr (fst kv) (snd kv) []) m)
    as [[rs Hrs] | [pre [kv [post [rs [e [-> [Hpre Hkv]]]]]]]].
  - assert (Hc : Forall2 (fun s r => toSql s = OK r) (map single m) rs).
    { clear Hm. induction Hrs as [|kv r m rs Hkv _ IH]; simpl;
        constructor; [now rewrite Hone | assumption]. }
    rewrite (conj_join_ok _ _ _ _ Hc).
    assert (Hf : filter nonempty rs = rs).
    { clear Hc Hm. induction Hrs as [|[k v] r m rs Hkv _ IH]; simpl;
        [reflexivity|].
      rewrite (Eq_entry_nonempty _ _ _ _ Hkv). now rewrite IH. }
    rewrite Hf. unfold Eq_toSql. rewrite (Eq_loop_ok _ _ _ Hrs). simpl.
    destruct rs as [|r rs]; [|reflexivity].
    inversion Hrs; subst. contradiction.
  - unfold Eq_toSql. rewrite (Eq_loop_err _ _ _ _ _ _ Hpre Hkv). simpl.
    rewrite map_app. simpl map. unfold conj_join.
    rewrite (conj_loop_err _ (map single pre) (map single post)
                           (single kv) e); [reflexivity| |].
    + clear Hm. induction Hpre as [|x r pre rs Hx _ IH]; simpl;
        constructor; [rewrite Hone; eauto | assumption].
    + now rewrite Hone.
Qed.

Section PredicateTheorems.
Variable json_Marshal : Value -> string + string.

(** X10. [Eq] and [NotEq] have no error of their own: a render fails
    exactly with the error of the first entry, in the order of the visit,
    whose [driver.Valuer] fails; nil, arrays, slices and scalars never make
    it fail. *)
Theorem Eq_fails_with_first_failing_Valuer (m : list (string * Value))
        (useNotOpr : bool) (e : error) :
  Eq_toSql m useNotOpr = Err e
  <->
  exists pre key val post,
    m = pre ++ (key, val) :: post /\
    Forall (fun kv => exists v, unwrap_Valuer (snd kv) = OK v) pre /\
    unwrap_Valuer val = Err e.
Proof.
  unfold Eq_toSql. split.
  - intros H.
    destruct (all_or_first_error _ _
                (fun kv => Eq_entry useNotOpr (fst kv) (snd kv) []) m)
      as [[rs Hrs] | [pre [[key val] [post [rs [e' [-> [Hpre Hkv]]]]]]]].
    + rewrite (Eq_loop_ok _ _ _ Hrs) in H. discriminate.
    + rewrite (Eq_loop_err _ _ _ _ _ _ Hpre Hkv) in H.
      inversion H; subst. exists pre, key, val, post.
      split; [reflexivity|]. split.
      * apply Forall2_ok_Forall in Hpre.
        eapply Forall_impl; [|exact Hpre].
        intros [k v] Hr. now apply (Eq_entry_ok useNotOpr k v).
      * now apply (Eq_entry_error useNotOpr key val).
  - intros [pre [key [val [post [-> [Hpre Hval]]]]]].
    assert (Hrs : exists rs,
               Forall2 (fun kv r =>
                          Eq_entry useNotOpr (fst kv) (snd kv) [] = OK r)
                       pre rs).
    { clear Hval. induction Hpre as [|[k v] pre Hkv _ [rs IH]].
      - exists []. constructor.
      - apply (Eq_entry_ok useNotOpr k v) in Hkv as [r Hr].
        exists (r :: rs). now constructor. }
    destruct Hrs as [rs Hrs].
    apply (Eq_entry_error useNotOpr key val) in Hval.
    now rewrite (Eq_loop_err _ _ post (key, val) _ _ Hrs Hval).
Qed.

(** X11. Negation changes the text only.  [NotEq] over a map renders
    exactly when [Eq] over it does and binds the same arguments: up to
    their order when the two renders visit the entries in two orders, in
    the same order when the visits agree, where the two also fail with
    the same error. *)
Theorem NotEq_binds_what_Eq_binds (m m' : list (string * Value)) :
  Permutation m m' ->
  match ToSql json_Marshal (Eq m), ToSql json_Marshal (NotEq m') with
  | OK (_, args), OK (_, args') =>
      Permutation args args' /\ (m = m' -> args = args')
  | Err e, Err e' => m = m' -> e = e'
  | _, _ => False
  end.
Proof.
  intros Hp. cbn [ToSql].
  assert (Hsame : match Eq_toSql m false, Eq_toSql m true with
                  | OK (_, args), OK (_, args') => args = args'
                  | Err e, Err e' => e = e'
                  | _, _ => False
                  end).
  { unfold Eq_toSql.
    pose proof (Eq_loop_negation m [] [] []) as H.
    destruct (Eq_loop false m [] []) as [[es vs]|e],
             (Eq_loop true m [] []) as [[es' vs']|e'];
      try contradiction; [apply H | exact H]. }
  assert (Heq : m = m' ->
                match Eq_toSql m false, Eq_toSql m' true with
                | OK (_, args), OK (_, args') => args = args'
                | Err e, Err e' => e = e'
                | _, _ => False
                end) by (intros <-; exact Hsame).
  pose proof (Eq_toSql_permuted m m' true Hp) as Hperm.
  unfold renders_alike in Hperm.
  destruct (Eq_toSql m false) as [[sql args]|e],
           (Eq_toSql m true) as [[sql1 args1]|e1],
           (Eq_toSql m' true) as [[sql' args']|e'];
    try contradiction; [|exact Heq].
  subst args1. split; [apply Hperm | exact Heq].
Qed.

(** X12. The four ordering builders differ by the operator only.  Over
    one map, [Lt], [LtOrEq], [Gt] and [GtOrEq] render together or fail
    together and bind the same arguments: up to their order when two
    renders visit the entries in two orders, in the same order when the
    visits agree, where they also fail with the same error. *)
Theorem ordering_builders_bind_alike (m m' : list (string * Value))
        (opposite orEq opposite' orEq' : bool) :
  Permutation m m' ->
  match Lt_toSql m opposite orEq, Lt_toSql m' opposite' orEq' with
  | OK (_, args), OK (_, args') =>
      Permutation args args' /\ (m = m' -> args = args')
  | Err e, Err e' => m = m' -> e = e'
  | _, _ => False
  end.
Proof.
  intros Hp.
  assert (Hsame : match Lt_toSql m opposite orEq,
                        Lt_toSql m opposite' orEq' with
                  | OK (_, args), OK (_, args') => args = args'
                  | Err e, Err e' => e = e'
                  | _, _ => False
                  end).
  { unfold Lt_toSql.
    pose proof (Lt_loop_operator (Lt_opr opposite orEq)
                                 (Lt_opr opposite' orEq') m [] [] []) as H.
    destruct (Lt_loop (Lt_opr opposite orEq) m [] []) as [[es vs]|e],
             (Lt_loop (Lt_opr opposite' orEq') m [] []) as [[es' vs']|e'];
      exact H. }
  assert (Heq : m = m' ->
                match Lt_toSql m opposite orEq,
                      Lt_toSql m' opposite' orEq' with
                | OK (_, args), OK (_, args') => args = args'
                | Err e, Err e' => e = e'
                | _, _ => False
                end) by (intros <-; exact Hsame).
  pose proof (Lt_toSql_permuted m m' opposite' orEq' Hp) as Hperm.
  unfold renders_alike in Hperm.
  destruct (Lt_toSql m opposite orEq) as [[sql args]|e],
           (Lt_toSql m opposite' orEq') as [[sql1 args1]|e1],
           (Lt_toSql m' opposite' orEq') as [[sql' args']|e'];
    try contradiction; [|exact Heq].
  subst args1. split; [apply Hperm | exact Heq].
Qed.

(** X13. An ordering builder renders exactly when every entry resolves,
    through its [driver.Valuer] if it has one, to a value that is neither
    nil nor a list for [isListType]; it then binds one argument per entry,
    the resolved value, in the order of the visit. *)
Theorem ordering_builder_binds_resolved_values (m : list (string * Value))
        (opposite orEq : bool) (args : list Value) :
  (exists sql, Lt_toSql m opposite orEq = OK (sql, args))
  <->
  Forall2 (fun kv v => unwrap_Valuer (snd kv) = OK v
                       /\ is_nil v = false /\ isListType v = false)
          m args.
Proof.
  unfold Lt_toSql. split.
  - intros [sql H].
    destruct (Lt_loop (Lt_opr opposite orEq) m [] []) as [[es vs]|e] eqn:E;
      [|discriminate].
    inversion H; subst.
    destruct (Lt_loop_binds _ _ _ _ _ _ E) as [vs' [-> Hvs]]. exact Hvs.
  - intros H.
    destruct (Lt_loop_renders (Lt_opr opposite orEq) _ _ H [] [])
      as [exprs' Hl].
    rewrite Hl. simpl. eauto.
Qed.


End PredicateTheorems.


Lemma NotEq_binds_what_Eq_binds_witness :
  match ToSql sample_Marshal
              (Eq [("a", VInt 1); ("b", VList [VInt 2; VInt 3])]),
        ToSql sample_Marshal
              (NotEq [("b", VList [VInt 2; VInt 3]); ("a", VInt 1)]) with
  | OK (_, args), OK (_, args') =>
      Permutation args args'
      /\ ([("a", VInt 1); ("b", VList [VInt 2; VInt 3])]
          = [("b", VList [VInt 2; VInt 3]); ("a", VInt 1)] ->
          args = args')
  | Err e, Err e' =>
      [("a", VInt 1); ("b", VList [VInt 2; VInt 3])]
      = [("b", VList [VInt 2; VInt 3]); ("a", VInt 1)] -> e = e'
  | _, _ => False
  end.
Proof.
  apply (NotEq_binds_what_Eq_binds
           sample_Marshal
           [("a", VInt 1); ("b", VList [VInt 2; VInt 3])]
           [("b", VList [VInt 2; VInt 3]); ("a", VInt 1)]).
  apply perm_swap.
Defined.

Lemma ordering_builders_bind_alike_witness :
  match Lt_toSql [("a", VInt 1); ("b", VString "x")] false false,
        Lt_toSql [("b", VString "x"); ("a", VInt 1)] true true with
  | OK (_, args), OK (_, args') =>
      Permutation args args'
      /\ ([("a", VInt 1); ("b", VString "x")]
          = [("b", VString "x"); ("a", VInt 1)] -> args = args')
  | Err e, Err e' =>
      [("a", VInt 1); ("b", VString "x")]
      = [("b", VString "x"); ("a", VInt 1)] -> e = e'
  | _, _ => False
  end.
Proof.
  apply (ordering_builders_bind_alike
           [("a", VInt 1); ("b", VString "x")]
           [("b", VString "x"); ("a", VInt 1)] false false true true).
  apply perm_swap.
Defined.

(** ** The wrappers and [exprs.AppendToSql] *)

Lemma Join_prefixed (sep text : string) (texts : list string) :
  strings_Join (text :: texts) sep =
  text +++ String.concat "" (map (fun t => sep +++ t) texts).
Proof.
  unfold strings_Join. revert text.
  induction texts as [|t texts IH]; intros text.
  - simpl. now rewrite append_nil_r.
  - change (String.concat sep (text :: t :: texts))
      with (text +++ sep +++ String.concat sep (t :: texts)).
    rewrite IH. cbn [map]. rewrite concat_nosep_cons.
    now rewrite !append_assoc.
Qed.

Lemma AppendToSql_loop_later (es : list expr) (sep : string) :
  forall i buf args,
    0 < i ->
    AppendToSql_loop string Buffer_WriteString es i buf sep args =
    (buf +++ String.concat "" (map (fun e => sep +++ expr_sql e) es),
     OK (args ++ concat (map expr_args es))).
Proof.
  induction es as [|e es IH]; intros i buf args Hi; cbn [AppendToSql_loop].
  - simpl. now rewrite append_nil_r, app_nil_r.
  - replace (Nat.ltb 0 i) with true by (symmetry; apply Nat.ltb_lt; lia).
    unfold Buffer_WriteString at 1 2. rewrite IH by lia.
    cbn [map concat]. rewrite concat_nosep_cons.
    now rewrite !append_assoc, <- app_assoc.
Qed.

Section AppendToSqlProperties.
Variable Writer : Type.
Variable WriteString : Writer -> string -> Writer * option error.

Lemma AppendToSql_loop_args (es : list expr) (sep : string) :
  forall i w args w' args',
    AppendToSql_loop Writer WriteString es i w sep args = (w', OK args') ->
    args' = args ++ concat (map expr_args es).
Proof.
  induction es as [|e es IH]; intros i w args w' args'; cbn [AppendToSql_loop].
  - intros [= <- <-]. simpl. now rewrite app_nil_r.
  - destruct (if Nat.ltb 0 i then WriteString w sep else (w, None))
      as [w1 [err1|]]; [discriminate|].
    destruct (WriteString w1 (expr_sql e)) as [w2 [err2|]]; [discriminate|].
    intros H. apply IH in H. subst. cbn [map concat].
    now rewrite <- app_assoc.
Qed.

End AppendToSqlProperties.

Section WrapperTheorems.
Variable json_Marshal : Value -> string + string.

(** X16. [aliasExpr], [lateralExpr] and [any] return the arguments and the
    error of the [Sqlizer] they wrap as they are, and a text with the marks
    of its text and those of the alias or column; [Between] never fails and
    returns its two bounds as they are, with two marks besides those of the
    field. *)
Theorem wrappers_keep_arguments_and_marks (s : Fragment)
        (alias column field : string) (left right : Value) :
  match ToSql json_Marshal s with
  | OK (sql, args) =>
      (exists text,
          aliasExpr_ToSql (ToSql json_Marshal) s alias = OK (text, args)
          /\ marks text = marks sql + marks alias)
      /\
      (exists text,
          lateralExpr_ToSql (ToSql json_Marshal) s alias = OK (text, args)
          /\ marks text = marks sql + marks alias)
      /\
      (exists text,
          any_ToSql (ToSql json_Marshal) column s = OK (text, args)
          /\ marks text = marks column + marks sql)
  | Err e =>
      aliasExpr_ToSql (ToSql json_Marshal) s alias = Err e /\
      lateralExpr_ToSql (ToSql json_Marshal) s alias = Err e /\
      any_ToSql (ToSql json_Marshal) column s = Err e
  end
  /\
  (exists text,
      Between_ToSql field left right = OK (text, [left; right])
      /\ marks text = marks field + 2).
Proof.
  unfold aliasExpr_ToSql, lateralExpr_ToSql, any_ToSql, Between_ToSql.
  split.
  - destruct (ToSql json_Marshal s) as [[sql args]|e]; [|auto].
    repeat split; eexists; (split; [reflexivity|]);
      rewrite !marks_app; simpl; lia.
  - eexists. split; [reflexivity|]. rewrite marks_app. reflexivity.
Qed.

(** X17. On a [bytes.Buffer], [exprs.AppendToSql] writes the templates of
    the expressions as they are, separated by [sep], after what the buffer
    holds, and returns the arguments it was given followed by those of the
    expressions in order.  It renders nothing: a [Sqlizer] among the
    arguments is returned as an argument and its mark stays in the text. *)
Theorem AppendToSql_writes_templates (es : list expr) (buf sep : string)
        (args : list Value) :
  AppendToSql string Buffer_WriteString es buf sep args
  = (buf +++ strings_Join (map expr_sql es) sep,
     OK (args ++ concat (map expr_args es))).
Proof.
  unfold AppendToSql. destruct es as [|e es].
  - simpl. now rewrite append_nil_r, app_nil_r.
  - cbn [AppendToSql_loop]. change (Nat.ltb 0 0) with false. cbv iota.
    unfold Buffer_WriteString at 1.
    rewrite AppendToSql_loop_later by lia.
    cbn [map concat]. rewrite Join_prefixed, map_map.
    now rewrite !append_assoc, <- app_assoc.
Qed.

End WrapperTheorems.

(** X18. Whatever the writer, when [exprs.AppendToSql] returns no error
    the arguments it returns are the arguments it was given followed by
    those of every expression, in order. *)
Theorem AppendToSql_appends_all_arguments (Writer : Type)
        (WriteString : Writer -> string -> Writer * option error)
        (es : list expr) (w w' : Writer) (sep : string)
        (args args' : list Value) :
  AppendToSql Writer WriteString es w sep args = (w', OK args') ->
  args' = args ++ concat (map expr_args es).
Proof. unfold AppendToSql. apply AppendToSql_loop_args. Qed.

Lemma AppendToSql_appends_all_arguments_witness :
  [VInt 0; VInt 1; VSqlizer (Expr "x" [])]
  = [VInt 0] ++ concat (map expr_args
                            [{| expr_sql := "WITH a AS ?";
                                expr_args := [VInt 1] |};
                             {| expr_sql := "b AS (?)";
                                expr_args := [VSqlizer (Expr "x" [])] |}]).
Proof.
  apply (AppendToSql_appends_all_arguments string Buffer_WriteString
           _ "" "WITH a AS ? b AS (?)" " " [VInt 0]).
  reflexivity.
Defined.

(** ** [SelectBuilder.ToSql] *)

Section SelectTheorems.
Variable appendToSql :
  list Fragment -> string -> string -> list Value
  -> string * result (list Value).

Lemma append_exprs_buffer (es : list expr) (sql : string)
      (args : list Value) :
  Select.append_exprs es sql args
  = (sql +++ strings_Join (map expr_sql es) " ",
     args ++ concat (map expr_args es)).
Proof.
  unfold Select.append_exprs, AppendToSql. destruct es as [|e es].
  - simpl. now rewrite append_nil_r, app_nil_r.
  - cbn [AppendToSql_loop]. change (Nat.ltb 0 0) with false. cbv iota.
    unfold Buffer_WriteString at 1.
    rewrite AppendToSql_loop_later by lia.
    cbn [map concat]. rewrite Join_prefixed, map_map.
    now rewrite !append_assoc, <- app_assoc.
Qed.

(** X19. A limit or an offset of zero is not written: on a builder with
    no limit and no offset, [Limit(0)] and [Offset(0)] leave the render as
    it is, whatever the clauses of the builder. *)
Theorem zero_limit_and_offset_are_not_written (b : Select.SelectBuilder) :
  Select.limitValid b = false ->
  Select.offsetValid b = false ->
  Select.ToSql appendToSql (Select.Limit b 0) = Select.ToSql appendToSql b
  /\
  Select.ToSql appendToSql (Select.Offset b 0) = Select.ToSql appendToSql b
  /\
  Select.ToSql appendToSql (Select.Offset (Select.Limit b 0) 0)
  = Select.ToSql appendToSql b.
Proof.
  intros Hl Ho. unfold Select.ToSql. cbn -[Nat.ltb Nat.eqb String.append].
  rewrite Hl, Ho. auto.
Qed.

(** X20. The suffix expressions come last: when a builder with suffixes
    and the format that leaves the text as it is renders, its text ends
    with a space and the templates of the suffixes separated by spaces,
    written as they are, and its arguments end with the arguments of the
    suffixes in order, a [Sqlizer] among them unrendered. *)
Theorem suffixes_are_written_last (b : Select.SelectBuilder)
        (sql : string) (args : list Value) :
  Select.suffixes b <> [] ->
  Select.placeholderFormat b = Select.Question ->
  Select.ToSql appendToSql b = OK (sql, args) ->
  exists head args0,
    sql = head +++ " "
               +++ strings_Join (map expr_sql (Select.suffixes b)) " "
    /\
    args = args0 ++ concat (map expr_args (Select.suffixes b)).
Proof.
  intros Hs Hq. unfold Select.ToSql.
  destruct (Nat.eqb (length (Select.columns b)) 0); [discriminate|].
  destruct (if Nat.ltb 0 (length (Select.prefixes b))
            then let '(sql0, args0) := Select.append_exprs
                                         (Select.prefixes b) "" [] in
                 (sql0 +++ " ", args0)
            else ("", [])) as [sql0 args0].
  unfold Select.and_then.
  repeat match goal with
         | |- context [Select.clause appendToSql ?p ?l ?s ?st] =>
             destruct (Select.clause appendToSql p l s st) as [[? ?]|?];
             [|discriminate]
         end.
  replace (Nat.ltb 0 (length (Select.suffixes b))) with true.
  2:{ destruct (Select.suffixes b); [contradiction | reflexivity]. }
  rewrite append_exprs_buffer, Hq. unfold Select.Question.
  intros [= <- <-]. rewrite append_assoc. eauto.
Qed.

End SelectTheorems.

Lemma zero_limit_and_offset_are_not_written_witness :
  Select.ToSql sample_appendToSql (Select.Limit sample_select 0)
  = Select.ToSql sample_appendToSql sample_select
  /\
  Select.ToSql sample_appendToSql (Select.Offset sample_select 0)
  = Select.ToSql sample_appendToSql sample_select
  /\
  Select.ToSql sample_appendToSql
               (Select.Offset (Select.Limit sample_select 0) 0)
  = Select.ToSql sample_appendToSql sample_select.
Proof.
  apply (zero_limit_and_offset_are_not_written
           sample_appendToSql sample_select); reflexivity.
Defined.

Lemma suffixes_are_written_last_witness :
  exists head args0,
    "SELECT a FROM t WHERE id = ? FOR UPDATE OF ?"
    = head +++ " "
           +++ strings_Join (map expr_sql (Select.suffixes sample_select)) " "
    /\
    [VInt 1; VSqlizer (Expr "t" [])]
    = args0 ++ concat (map expr_args (Select.suffixes sample_select)).
Proof.
  apply (suffixes_are_written_last sample_appendToSql sample_select).
  - discriminate.
  - reflexivity.
  - reflexivity.
Defined.

(** ** Renders of one fragment under two orders of visit *)






Section OneOrder.
Variable json_Marshal : Value -> string + string.
Variable range : list (string * Value) -> list (string * Value).
Hypothesis range_visits_all : forall m, Permutation (range m) m.








End OneOrder.

Section TwoOrders.
Variable json_Marshal : Value -> string + string.
Variable range1 : list (string * Value) -> list (string * Value).
Variable range2 : list (string * Value) -> list (string * Value).
Hypothesis range1_visits_all : forall m, Permutation (range1 m) m.
Hypothesis range2_visits_all : forall m, Permutation (range2 m) m.









End TwoOrders.


(** ** Argument slices *)

Lemma append_slice_of (args vs : list Value) :
  append_slice (slice_of args) vs = slice_of (args ++ vs).
Proof. destruct vs; simpl; [now rewrite app_nil_r | reflexivity]. Qed.

Lemma slice_elems_append (s : slice) (vs : list Value) :
  slice_elems (append_slice s vs) = slice_elems s ++ vs.
Proof. destruct vs; simpl; [now rewrite app_nil_r | reflexivity]. Qed.

(** What was appended to a nil slice is nil as long as it is empty. *)
Lemma append_slice_nil (args vs : list Value) :
  append_slice (append_slice nil_slice args) vs
  = append_slice nil_slice (args ++ vs).
Proof.
  destruct vs as [|v vs]; [simpl; now rewrite app_nil_r|].
  destruct args; reflexivity.
Qed.

Section SliceLemmas.
Variable toSql : Fragment -> rendered.

Lemma expr_switch_slice_of (arg : Value) (buf : string) (args : list Value) :
  expr_switch_slice toSql arg buf (slice_of args) =
  match expr_switch toSql arg buf args with
  | OK (buf', args') => OK (buf', slice_of args')
  | Err e => Err e
  end.
Proof.
  destruct arg; simpl; try reflexivity.
  destruct (toSql f) as [[sql vs]|e]; [|reflexivity].
  now rewrite append_slice_of.
Qed.

Lemma expr_index_slice_of (e_args : list Value) :
  forall n buf args,
    expr_index_slice toSql e_args n buf (slice_of args) =
    match expr_index toSql e_args n buf args with
    | OK (buf', args') => OK (buf', slice_of args')
    | Err e => Err e
    end.
Proof.
  induction e_args as [|a l IH]; intros [|n] buf args;
    cbn [expr_index_slice expr_index]; try reflexivity.
  - apply expr_switch_slice_of.
  - apply IH.
Qed.

Lemma expr_replace_slice_of (e_args : slice) (buf : string) (i : nat)
      (args : list Value) :
  expr_replace_slice toSql e_args buf i (slice_of args) =
  match expr_replace toSql (slice_elems e_args) buf i args with
  | OK (buf', args') => OK (buf', slice_of args')
  | Err e => Err e
  end.
Proof.
  unfold expr_replace_slice, expr_replace.
  destruct (Nat.ltb (length (slice_elems e_args)) i); [reflexivity|].
  apply expr_index_slice_of.
Qed.

Lemma expand_from_slice_of (e_args : slice) :
  forall sql i buf args,
    replacePlaceholders_from (expr_replace_slice toSql e_args) sql i buf
                             (slice_of args) =
    match replacePlaceholders_from
            (expr_replace toSql (slice_elems e_args)) sql i buf args with
    | OK (buf', args') => OK (buf', slice_of args')
    | Err e => Err e
    end.
Proof.
  induction sql as [|c rest IH]; intros i buf args;
    cbn [replacePlaceholders_from]; [reflexivity|].
  destruct (Ascii.eqb c mark); [|apply IH].
  rewrite expr_replace_slice_of.
  destruct (expr_replace toSql (slice_elems e_args) buf (S i) args)
    as [[buf' args']|e]; [apply IH | reflexivity].
Qed.

(** The expansion returns a slice that is not nil; its elements are the
    arguments of [expr_expand]. *)
Lemma expr_expand_slice_of (sql : string) (e_args : slice) :
  expr_expand_slice toSql sql e_args =
  match expr_expand toSql sql (slice_elems e_args) with
  | OK (text, args) => OK (text, slice_of args)
  | Err e => Err e
  end.
Proof.
  unfold expr_expand_slice, expr_expand, replacePlaceholders.
  apply expand_from_slice_of.
Qed.

Lemma conj_loop_slice_of (c : list Fragment) :
  forall sqlParts args,
    conj_loop_slice toSql c sqlParts (append_slice nil_slice args) =
    match conj_loop toSql c sqlParts args with
    | OK (parts, args') => OK (parts, append_slice nil_slice args')
    | Err e => Err e
    end.
Proof.
  induction c as [|s c IH]; intros sqlParts args;
    cbn [conj_loop_slice conj_loop]; [reflexivity|].
  destruct (toSql s) as [[partSql partArgs]|e]; [|reflexivity].
  destruct (String.eqb partSql ""); [apply IH|].
  rewrite append_slice_nil. apply IH.
Qed.

(** [conj.join] returns a nil slice when it binds nothing; the elements
    of what it returns are the arguments of [conj_join]. *)
Lemma conj_join_slice_of (c : list Fragment) (sep : string) :
  conj_join_slice toSql c sep =
  match conj_join toSql c sep with
  | OK (sql, args) => OK (sql, append_slice nil_slice args)
  | Err e => Err e
  end.
Proof.
  unfold conj_join_slice, conj_join.
  change nil_slice with (append_slice nil_slice []) at 1.
  rewrite conj_loop_slice_of.
  destruct (conj_loop toSql c [] []) as [[parts args]|e]; [|reflexivity].
  destruct (Nat.ltb 0 (length parts)); reflexivity.
Qed.

End SliceLemmas.

Lemma Eq_entry_slice_elems (useNotOpr : bool) (key : string) (val : Value)
      (args : slice) :
  match Eq_entry_slice useNotOpr key val args,
        Eq_entry useNotOpr key val (slice_elems args) with
  | OK (expr, args1), OK (expr', args2) =>
      expr = expr' /\ slice_elems args1 = args2
  | Err e, Err e' => e = e'
  | _, _ => False
  end.
Proof.
  unfold Eq_entry_slice, Eq_entry.
  destruct (unwrap_Valuer val) as [v|e]; [|reflexivity].
  destruct (is_nil v); [now split|].
  destruct (isListType v).
  - destruct (Nat.eqb (length (list_elems v)) 0).
    + split; [reflexivity | now destruct args].
    + split; [reflexivity | apply slice_elems_append].
  - split; [reflexivity | apply slice_elems_append].
Qed.

Lemma Eq_loop_slice_elems (useNotOpr : bool) (m : list (string * Value)) :
  forall exprs args,
    match Eq_loop_slice useNotOpr m exprs args,
          Eq_loop useNotOpr m exprs (slice_elems args) with
    | OK (es, args1), OK (es', args2) =>
        es = es' /\ slice_elems args1 = args2
    | Err e, Err e' => e = e'
    | _, _ => False
    end.
Proof.
  induction m as [|[key val] m IH]; intros exprs args;
    cbn [Eq_loop_slice Eq_loop]; [now split|].
  pose proof (Eq_entry_slice_elems useNotOpr key val args) as H.
  destruct (Eq_entry_slice useNotOpr key val args) as [[expr args1]|e],
           (Eq_entry useNotOpr key val (slice_elems args))
    as [[expr' args2]|e']; try contradiction; [|exact H].
  destruct H as [<- <-]. apply IH.
Qed.

(** The elements of what [Eq.toSql] returns are the arguments of
    [Eq_toSql]. *)
Lemma Eq_toSql_slice_elems (m : list (string * Value)) (useNotOpr : bool) :
  match Eq_toSql_slice m useNotOpr, Eq_toSql m useNotOpr with
  | OK (sql, args1), OK (sql', args2) =>
      sql = sql' /\ slice_elems args1 = args2
  | Err e, Err e' => e = e'
  | _, _ => False
  end.
Proof.
  unfold Eq_toSql_slice, Eq_toSql.
  pose proof (Eq_loop_slice_elems useNotOpr m [] nil_slice) as H.
  cbn [slice_elems] in H.
  destruct (Eq_loop_slice useNotOpr m [] nil_slice) as [[es args1]|e],
           (Eq_loop useNotOpr m [] []) as [[es' args2]|e'];
    try contradiction; [|exact H].
  destruct H as [<- <-]. now split.
Qed.

Section SliceTheorems.
Variable json_Marshal : Value -> string + string.

(** C8, as amended.  For an [expr] without a [Sqlizer] among its arguments
    and whose template has at least as many marks as there are arguments,
    the fast path returns the template and the slice of the arguments as
    they are, and the placeholder expansion returns the template and a
    slice that is not nil with the same elements: the two paths return the
    same text, arguments and error when the slice of the arguments is not
    nil, and differ by the nil-ness of the arguments when it is. *)
Theorem fast_path_agrees_but_for_nil (sql : string) (e_args : slice) :
  hasSqlizer (slice_elems e_args) = false ->
  length (slice_elems e_args) <= marks sql ->
  expr_ToSql_slice (ToSql json_Marshal) sql e_args = OK (sql, e_args)
  /\
  expr_expand_slice (ToSql json_Marshal) sql e_args
  = OK (sql, slice_of (slice_elems e_args))
  /\
  (e_args <> nil_slice ->
   expr_ToSql_slice (ToSql json_Marshal) sql e_args
   = expr_expand_slice (ToSql json_Marshal) sql e_args).
Proof.
  intros Hs Hlen.
  assert (Hfast : expr_ToSql_slice (ToSql json_Marshal) sql e_args
                  = OK (sql, e_args)).
  { unfold expr_ToSql_slice. now rewrite Hs. }
  assert (Hexp : expr_expand_slice (ToSql json_Marshal) sql e_args
                 = OK (sql, slice_of (slice_elems e_args))).
  { rewrite expr_expand_slice_of, expand_scalars by assumption.
    now rewrite firstn_all2. }
  repeat split; [assumption | assumption |].
  intros Hnil. rewrite Hfast, Hexp.
  destruct e_args; [contradiction | reflexivity].
Qed.

(** X15. An [Eq] over a map that is not empty renders as the [And] of
    the [Eq]s of its entries, one map per entry in the same order, up to
    the parentheses that [And] adds: the same clauses, the same arguments
    element by element, the same error.  The slice of the arguments is
    the same but for its nil-ness when nothing is bound: [And] then
    returns a nil slice, whatever [Eq] returns.  The same holds for
    [NotEq]. *)
Theorem Eq_is_And_of_its_entries (m : list (string * Value)) :
  m <> [] ->
  conj_join_slice (ToSql json_Marshal) (map (fun kv => Eq [kv]) m) " AND "
  = match Eq_toSql_slice m false with
    | OK (sql, args) =>
        OK ("(" +++ sql +++ ")", append_slice nil_slice (slice_elems args))
    | Err e => Err e
    end
  /\
  conj_join_slice (ToSql json_Marshal) (map (fun kv => NotEq [kv]) m)
                  " AND "
  = match Eq_toSql_slice m true with
    | OK (sql, args) =>
        OK ("(" +++ sql +++ ")", append_slice nil_slice (slice_elems args))
    | Err e => Err e
    end.
Proof.
  intros Hm.
  assert (Hgen : forall (useNotOpr : bool)
                        (single : string * Value -> Fragment),
             (forall kv, ToSql json_Marshal (single kv)
                         = Eq_toSql [kv] useNotOpr) ->
             conj_join_slice (ToSql json_Marshal) (map single m) " AND "
             = match Eq_toSql_slice m useNotOpr with
               | OK (sql, args) =>
                   OK ("(" +++ sql +++ ")",
                       append_slice nil_slice (slice_elems args))
               | Err e => Err e
               end).
  { intros useNotOpr single Hsingle.
    rewrite conj_join_slice_of.
    rewrite (conj_join_of_entries _ useNotOpr single m Hsingle Hm).
    pose proof (Eq_toSql_slice_elems m useNotOpr) as H.
    destruct (Eq_toSql_slice m useNotOpr) as [[sql args1]|e],
             (Eq_toSql m useNotOpr) as [[sql' args2]|e'];
      try contradiction.
    - destruct H as [<- <-]. reflexivity.
    - now subst. }
  split; apply Hgen; reflexivity.
Qed.

End SliceTheorems.

Lemma fast_path_agrees_but_for_nil_witness :
  expr_ToSql_slice (ToSql sample_Marshal) "a = ? AND b = ?"
                   (slice_of [VInt 1; VInt 2])
  = expr_expand_slice (ToSql sample_Marshal) "a = ? AND b = ?"
                      (slice_of [VInt 1; VInt 2]).
Proof.
  apply (fast_path_agrees_but_for_nil
           sample_Marshal "a = ? AND b = ?" (slice_of [VInt 1; VInt 2]));
    [reflexivity | simpl; lia | discriminate].
Defined.

Lemma Eq_is_And_of_its_entries_witness :
  conj_join_slice (ToSql sample_Marshal)
                  [Eq [("a", VInt 1)]; Eq [("b", VNil)]; Eq [("c", VList [])]]
                  " AND "
  = OK ("(a = ? AND b IS NULL AND (1=0))", slice_of [VInt 1])
  /\
  Eq_toSql_slice [("b", VNil); ("c", VList [])] false
  = OK ("b IS NULL AND (1=0)", slice_of [])
  /\
  conj_join_slice (ToSql sample_Marshal)
                  [Eq [("b", VNil)]; Eq [("c", VList [])]] " AND "
  = OK ("(b IS NULL AND (1=0))", nil_slice).
Proof.
  split; [|split; [reflexivity|]].
  - apply (proj1 (Eq_is_And_of_its_entries
                    sample_Marshal
                    [("a", VInt 1); ("b", VNil); ("c", VList [])]
                    ltac:(discriminate))).
  - apply (proj1 (Eq_is_And_of_its_entries
                    sample_Marshal [("b", VNil); ("c", VList [])]
                    ltac:(discriminate))).
Defined.
